(** * go-lirc: the LIRC client connection engine

    A shallow embedding of package [lirc]: the command encoders
    (commands.go), the reply and event records, the line parser
    [lircReader.read], the dispatch loop of [Connection.Start] and
    [Connection.SendCommand], together with the parts of the Go standard
    library they call ([strings], [encoding/hex], [strconv],
    [encoding/binary], [context]).

    Conventions.
    - A Go [string] is a [string] (a sequence of bytes).
    - Go's [int], [uint] and [uint64] are [Z], on a 64-bit platform
      ([strconv.IntSize = 64]); wrap-around is written out where the
      code relies on it.
    - A run-time panic (index out of range, [makeslice]) is an explicit
      outcome of the function that raises it.
    - Channel sends and log records are collected as a list of effects.
    - A [select] statement takes, as an argument, the case that fires. *)

From Stdlib Require Import String Ascii List ZArith Lia Bool Permutation.
Import ListNotations.

Local Open Scope string_scope.
Local Open Scope Z_scope.

(** ** Run-time panics *)

Inductive panic : Type :=
| IndexOutOfRange (index len : Z)
| MakesliceCapOutOfRange.

(** A computation that either yields a value or panics. *)
Inductive go (A : Type) : Type :=
| Ok (a : A)
| Panic (p : panic).
Arguments Ok {A} a.
Arguments Panic {A} p.

Definition bind {A B : Type} (m : go A) (k : A -> go B) : go B :=
  match m with
  | Ok a => k a
  | Panic p => Panic p
  end.

Notation "x <- m ;; k" := (bind m (fun x => k))
  (at level 61, m at next level, right associativity).

(** [len(s)] of a string and of a slice. *)
Definition len (s : string) : Z := Z.of_nat (String.length s).
Definition slen {A : Type} (l : list A) : Z := Z.of_nat (List.length l).

(** [w[i]] on a slice: panics outside [0 <= i < len(w)]. *)
Definition index {A : Type} (w : list A) (i : nat) : go A :=
  match nth_error w i with
  | Some a => Ok a
  | None => Panic (IndexOutOfRange (Z.of_nat i) (slen w))
  end.

(** [make([]T, 0, cap)]: the run time refuses a negative capacity and one
    whose byte size exceeds [maxAlloc]; a string header takes 16 bytes and
    [maxAlloc] is [2^48] on linux/amd64.  The capacity is an allocation
    hint only: the slice made is empty.  A capacity that passes this
    check and that the run time has no memory for ends the process with
    a fatal error; memory is not part of the embedding, and [Ok] says
    what [make] returns when it returns. *)
Definition maxAlloc : Z := 2 ^ 48.
Definition stringSize : Z := 16.

Definition make_strings (cap : Z) : go (list string) :=
  if (cap <? 0) || (maxAlloc <? stringSize * cap)
  then Panic MakesliceCapOutOfRange
  else Ok [].

(** ** Package strings *)

Module strings.

(** [strings.Repeat(s, count)] for [count >= 0]. *)
Fixpoint Repeat (s : string) (count : nat) : string :=
  match count with
  | O => ""
  | S n => (s ++ Repeat s n)%string
  end.

(** [strings.Split(s, sep)] for a separator of one byte: the pieces
    between the separators, empty pieces included; never empty. *)
Fixpoint Split (s : string) (sep : ascii) : list string :=
  match s with
  | EmptyString => [""]
  | String c rest =>
      if Ascii.eqb c sep then "" :: Split rest sep
      else match Split rest sep with
           | [] => [String c ""]
           | w :: ws => String c w :: ws
           end
  end.

(** [strings.Join(elems, sep)]. *)
Fixpoint Join (elems : list string) (sep : string) : string :=
  match elems with
  | [] => ""
  | [e] => e
  | e :: rest => (e ++ sep ++ Join rest sep)%string
  end.

End strings.

(** ** Package encoding/hex *)

Module hex.

Inductive error := InvalidByteError (b : ascii) | ErrLength.

(** [reverseHexTable]: the value of a hexadecimal digit, either case. *)
Definition fromHexChar (c : ascii) : option Z :=
  let n := Z.of_nat (nat_of_ascii c) in
  if (48 <=? n) && (n <=? 57) then Some (n - 48)
  else if (97 <=? n) && (n <=? 102) then Some (n - 87)
  else if (65 <=? n) && (n <=? 70) then Some (n - 55)
  else None.

(** [hex.Decode]: two digits a byte; the bytes decoded so far come back
    with the error. *)
Fixpoint Decode (src : string) : list Z * option error :=
  match src with
  | EmptyString => ([], None)
  | String p EmptyString =>
      match fromHexChar p with
      | None => ([], Some (InvalidByteError p))
      | Some _ => ([], Some ErrLength)
      end
  | String p (String q rest) =>
      match fromHexChar p, fromHexChar q with
      | None, _ => ([], Some (InvalidByteError p))
      | Some _, None => ([], Some (InvalidByteError q))
      | Some a, Some b =>
          let (bs, err) := Decode rest in
          (Z.lor (Z.shiftl a 4) b :: bs, err)
      end
  end.

Definition DecodeString (s : string) : list Z * option error := Decode s.

End hex.

(** ** Package encoding/binary *)

Module binary.

(** [binary.LittleEndian.Uint16(b)]: [b[0] | b[1]<<8], after the bounds
    check [_ = b[1]]. *)
Definition Uint16 (b : list Z) : go Z :=
  b1 <- index b 1 ;;
  b0 <- index b 0 ;;
  Ok (Z.lor b0 (Z.shiftl b1 8)).

End binary.

(** ** Package strconv *)

Module strconv.

Inductive NumError := ErrSyntax | ErrRange.

Definition IntSize : Z := 64.
Definition maxUint64 : Z := 2 ^ 64 - 1.

(** The value of a decimal digit. *)
Definition digit (c : ascii) : option Z :=
  let n := Z.of_nat (nat_of_ascii c) in
  if (48 <=? n) && (n <=? 57) then Some (n - 48) else None.

(** The loop of [ParseUint] in base 10 with [bitSize] 64: the
    accumulator [n] is a [uint64], [n1 := n + d] may wrap. *)
Fixpoint parseUintLoop (s : string) (n : Z) : Z * option NumError :=
  match s with
  | EmptyString => (n, None)
  | String c rest =>
      match digit c with
      | None => (0, Some ErrSyntax)
      | Some d =>
          let cutoff := maxUint64 / 10 + 1 in
          let maxVal := 2 ^ IntSize - 1 in
          if cutoff <=? n then (maxVal, Some ErrRange)
          else
            let n10 := n * 10 in
            let n1 := (n10 + d) mod 2 ^ 64 in
            if (n1 <? n10) || (maxVal <? n1) then (maxVal, Some ErrRange)
            else parseUintLoop rest n1
      end
  end.

(** [strconv.ParseUint(s, 10, 0)]. *)
Definition ParseUint (s : string) : Z * option NumError :=
  match s with
  | EmptyString => (0, Some ErrSyntax)
  | _ => parseUintLoop s 0
  end.

(** [strconv.ParseInt(s, 10, 0)]. *)
Definition ParseInt (s : string) : Z * option NumError :=
  match s with
  | EmptyString => (0, Some ErrSyntax)
  | String c rest =>
      let neg := Ascii.eqb c "-" in
      let s' := if Ascii.eqb c "+" || Ascii.eqb c "-" then rest else s in
      let (un, err) := ParseUint s' in
      match err with
      | Some ErrSyntax => (0, Some ErrSyntax)
      | _ =>
          let cutoff := 2 ^ (IntSize - 1) in
          if negb neg && (cutoff <=? un) then (cutoff - 1, Some ErrRange)
          else if neg && (cutoff <? un) then (- cutoff, Some ErrRange)
          else (if neg then - un else un, None)
      end
  end.

(** The loop of the fast path of [Atoi]. *)
Fixpoint atoiLoop (s : string) (n : Z) : option Z :=
  match s with
  | EmptyString => Some n
  | String ch rest =>
      match digit ch with
      | None => None
      | Some d => atoiLoop rest (n * 10 + d)
      end
  end.

(** [strconv.Atoi(s)]: the fast path for fewer than 19 bytes, [ParseInt]
    for the rest.  A sign is accepted: a negative number is no error. *)
Definition Atoi (s : string) : Z * option NumError :=
  let sLen := len s in
  if (0 <? sLen) && (sLen <? 19) then
    match s with
    | EmptyString => (0, Some ErrSyntax)
    | String c rest =>
        let signed := Ascii.eqb c "-" || Ascii.eqb c "+" in
        let s' := if signed then rest else s in
        if signed && (len s' <? 1) then (0, Some ErrSyntax)
        else match atoiLoop s' 0 with
             | None => (0, Some ErrSyntax)
             | Some n => (if Ascii.eqb c "-" then - n else n, None)
             end
    end
  else ParseInt s.

(** [strconv.Itoa(i)]: at most 19 digits, after the sign. *)
Definition digitChar (d : Z) : ascii := ascii_of_nat (Z.to_nat (48 + d)).

Fixpoint itoaLoop (fuel : nat) (i : Z) (acc : string) : string :=
  match fuel with
  | O => acc
  | S f =>
      let acc' := String (digitChar (i mod 10)) acc in
      if i <? 10 then acc' else itoaLoop f (i / 10) acc'
  end.

Definition Itoa (i : Z) : string :=
  if i <? 0 then String "-" (itoaLoop 20 (- i) "") else itoaLoop 20 i "".

End strconv.

(** ** commands.go *)

(** [type Command interface { EncodeCommand() []string }] *)
Class Command (A : Type) : Type := { EncodeCommand : A -> list string }.

(** The conversion [int(u)] of a [uint]. *)
Definition int_of_uint (u : Z) : Z := if u <? 2 ^ 63 then u else u - 2 ^ 64.

Record SendOnce := { so_RemoteControl : string; so_ButtonName : string; Repeats : Z }.
Record SendStart := { ss_RemoteControl : string; ss_ButtonName : string }.
Record SendStop := { sp_RemoteControl : string; sp_ButtonName : string }.
Record List := { RemoteControl : string }.
Record SetInputLog := { Path : string }.
Record DrvOption := { Key : string; Value : string }.
Record Simulate := { sim_Key : string; sim_Data : string }.
Record SetTransmitters := { TransmitterMask : string }.
Record Version := { }.

#[export] Instance SendOnce_Command : Command SendOnce :=
  {| EncodeCommand s :=
       if Repeats s =? 0
       then ["SEND_ONCE"; so_RemoteControl s; so_ButtonName s]
       else ["SEND_ONCE"; so_RemoteControl s; so_ButtonName s;
             strconv.Itoa (int_of_uint (Repeats s))] |}.

#[export] Instance SendStart_Command : Command SendStart :=
  {| EncodeCommand s := ["SEND_START"; ss_RemoteControl s; ss_ButtonName s] |}.

#[export] Instance SendStop_Command : Command SendStop :=
  {| EncodeCommand s := ["SEND_STOP"; sp_RemoteControl s; sp_ButtonName s] |}.

#[export] Instance List_Command : Command List :=
  {| EncodeCommand l :=
       if (RemoteControl l =? "")%string then ["LIST"]
       else ["LIST"; RemoteControl l] |}.

#[export] Instance SetInputLog_Command : Command SetInputLog :=
  {| EncodeCommand s :=
       if (Path s =? "")%string then ["SET_INPUTLOG"]
       else ["SET_INPUTLOG"; Path s] |}.

#[export] Instance DrvOption_Command : Command DrvOption :=
  {| EncodeCommand d := ["DRV_OPTION"; Key d; Value d] |}.

#[export] Instance Simulate_Command : Command Simulate :=
  {| EncodeCommand s := ["SIMULATE"; sim_Key s; sim_Data s] |}.

#[export] Instance SetTransmitters_Command : Command SetTransmitters :=
  {| EncodeCommand s := ["SET_TRANSMITTERS"; TransmitterMask s] |}.

#[export] Instance Version_Command : Command Version :=
  {| EncodeCommand _ := ["VERSION"] |}.

(** A value of interface type [Command]: a value with its method. *)
Record command : Type :=
  Pack { carrier : Type; methods : Command carrier; value : carrier }.
Arguments Pack {carrier methods} value.

Definition encode (c : command) : list string :=
  @EncodeCommand (carrier c) (methods c) (value c).

(** ** The event and reply records *)

Record ButtonPress : Type := {
  Code : Z;                     (* uint16 *)
  RepeatCount : Z;              (* uint *)
  ButtonName : string;
  RemoteControlName : string
}.

Module Reply.
Record CommandReply : Type := {
  Command : string;
  Success : bool;
  Data : list string
}.
End Reply.
Abbreviation CommandReply := Reply.CommandReply.

(** The zero value [CommandReply{}]. *)
Definition zeroReply : CommandReply :=
  {| Reply.Command := ""; Reply.Success := false; Reply.Data := [] |}.

(** ** The protocol reader *)

Inductive connectionState : Type :=
| stateReceive
| stateReply
| stateMessage
| stateStatus
| stateDataStart
| stateDataLength
| stateData
| stateDataEnd.

Record lircReader : Type := {
  state : connectionState;
  reply : CommandReply;
  dataCount : Z;
  dataLength : Z
}.

Definition newLircReader : lircReader :=
  {| state := stateReceive; reply := zeroReply; dataCount := 0; dataLength := 0 |}.

(** What a call of [read] does to the outside: a record of the logger, a
    value sent on [r.events], a value sent on [r.replies]. *)
Inductive attr : Type :=
| IntAttr (key : string) (v : Z)
| StrAttr (key : string) (v : string).

Inductive effect : Type :=
| LogError (err : string) (attrs : list attr)
| SendEvent (e : ButtonPress)
| SendReply (r : CommandReply).

(** The two cases of [select { case <-ctx.Done(): ; case ch <- v: }]. *)
Inductive selected : Type := CtxDone | Sent.

Definition with_state (r : lircReader) (s : connectionState) : lircReader :=
  {| state := s; reply := reply r; dataCount := dataCount r; dataLength := dataLength r |}.

Definition with_reply (r : lircReader) (p : CommandReply) : lircReader :=
  {| state := state r; reply := p; dataCount := dataCount r; dataLength := dataLength r |}.

(** [stateError]: one error record, and back to [stateReceive]. *)
Definition stateError (r : lircReader) (err : string) (attrs : list attr)
  : lircReader * list effect :=
  (with_state r stateReceive, [LogError err attrs]).

(** [flushReply]: the reply goes out when the send case fires, and nowhere
    when the context's case fires. *)
Definition flushReply (sel : selected) (r : lircReader) : list effect :=
  match sel with
  | CtxDone => []
  | Sent => [SendReply (reply r)]
  end.

(** The padding of the code field:
    [if len(h) < 16 { h = strings.Repeat("0", 16-len(h)) + h }]. *)
Definition pad16 (h : string) : string :=
  if len h <? 16
  then (strings.Repeat "0" (Z.to_nat (16 - len h)) ++ h)%string
  else h.

(** [(r *lircReader) read(ctx, line)]: one line in the state [r], with
    the case [sel] that its [select] takes when it comes to one.  The
    result is the reader afterwards with what was logged and sent, or the
    panic of an index expression or of [make]. *)
Definition read (sel : selected) (r : lircReader) (line : string)
  : go (lircReader * list effect) :=
  match state r with
  | stateReceive =>
      if (line =? "BEGIN")%string then
        Ok ({| state := stateReply; reply := zeroReply;
               dataCount := 0; dataLength := 0 |}, [])
      else
        let w := strings.Split line " " in
        h <- index w 0 ;;
        let h := pad16 h in
        match hex.DecodeString h with
        | (_, Some _) =>
            Ok (stateError r "lirc code not parseable as hex"
                  [IntAttr "len" (len h)])
        | (c, None) =>
            if negb (slen c =? 8) then
              Ok (stateError r "lirc code has wrong length for 16-bit integer"
                    [IntAttr "len" (slen c)])
            else
              w1 <- index w 1 ;;
              match strconv.ParseUint w1 with
              | (_, Some _) =>
                  Ok (stateError r
                        "lirc repeat count not parseable as decimal (invalid repeat count)"
                        [StrAttr "repeat" w1])
              | (repeats, None) =>
                  code <- binary.Uint16 c ;;
                  w2 <- index w 2 ;;
                  w3 <- index w 3 ;;
                  let event := {| Code := code; RepeatCount := repeats;
                                  ButtonName := w2; RemoteControlName := w3 |} in
                  match sel with
                  | CtxDone => Ok (r, [])
                  | Sent => Ok (r, [SendEvent event])
                  end
              end
        end
  | stateReply =>
      let r := with_reply r {| Reply.Command := line; Reply.Success := true;
                               Reply.Data := [] |} in
      Ok (with_state r stateStatus, [])
  | stateStatus =>
      if (line =? "SUCCESS")%string then Ok (with_state r stateDataStart, [])
      else if (line =? "ERROR")%string then
        let r := with_reply r {| Reply.Command := Reply.Command (reply r);
                                 Reply.Success := false;
                                 Reply.Data := Reply.Data (reply r) |} in
        Ok (with_state r stateDataStart, [])
      else if (line =? "END")%string then
        let r := with_state r stateReceive in
        Ok (r, flushReply sel r)
      else
        Ok (stateError r "lirc reply message received has invalid status"
              [StrAttr "line" line])
  | stateDataStart =>
      if (line =? "DATA")%string then Ok (with_state r stateDataLength, [])
      else if (line =? "END")%string then
        let r := with_state r stateReceive in
        Ok (r, flushReply sel r)
      else
        Ok (stateError r "lirc reply message received has invalid data start"
              [StrAttr "line" line])
  | stateDataLength =>
      let (n, err) := strconv.Atoi line in
      let r := {| state := state r; reply := reply r;
                  dataCount := dataCount r; dataLength := n |} in
      match err with
      | Some _ =>
          Ok (stateError r "lirc reply message received has invalid data length"
                [StrAttr "line" line])
      | None =>
          let r := {| state := stateData; reply := reply r;
                      dataCount := 0; dataLength := dataLength r |} in
          data <- make_strings (dataLength r) ;;
          Ok (with_reply r {| Reply.Command := Reply.Command (reply r);
                              Reply.Success := Reply.Success (reply r);
                              Reply.Data := data |}, [])
      end
  | stateData =>
      let r := with_reply r {| Reply.Command := Reply.Command (reply r);
                               Reply.Success := Reply.Success (reply r);
                               Reply.Data := (Reply.Data (reply r) ++ [line])%list |} in
      let r := {| state := state r; reply := reply r;
                  dataCount := dataCount r + 1; dataLength := dataLength r |} in
      if dataLength r <? dataCount r
      then Ok (with_state r stateDataEnd, [])
      else Ok (r, [])
  | stateDataEnd =>
      if negb (line =? "END")%string then
        Ok (stateError r
              "lirc reply message received has invalid data end, discarding reply"
              [StrAttr "line" line])
      else
        Ok (with_state r stateReceive, flushReply sel r)
  | stateMessage => Ok (r, [])
  end.

(** The read loop of [Start]: [reader.read(ctx, line)] for each line
    scanned, with the case that each [select] takes. *)
Fixpoint feed (r : lircReader) (lines : list (string * selected))
  : go (lircReader * list effect) :=
  match lines with
  | [] => Ok (r, [])
  | (line, sel) :: rest =>
      p <- read sel r line ;;
      q <- feed (fst p) rest ;;
      Ok (fst q, (snd p ++ snd q)%list)
  end.

(** Lines read while every send finds its receiver. *)
Definition sent (lines : list string) : list (string * selected) :=
  map (fun l => (l, Sent)) lines.

(** ** Errors and package context *)

Inductive error : Type :=
| Canceled                                  (* context.Canceled *)
| DeadlineExceeded                          (* context.DeadlineExceeded *)
| SocketError (msg : string)                (* an error of the net.Conn *)
| ErrUnsuccessfulCommand                    (* "lirc: unsuccessful command" *)
| Errorf_q (message : string) (arg : string)  (* fmt.Errorf(message + ": %q", arg) *)
| Errorf_w (message : string) (err : error).  (* fmt.Errorf(message + ": %w", err) *)

Module context.

(** A cancellable context: [Err] is nil until the context is done, and
    the cause is set together with it, by the first cancellation. *)
Record Context : Type := { Err : option error; cause : option error }.

Definition Background : Context := {| Err := None; cause := None |}.

(** [<-ctx.Done()] can proceed. *)
Definition Done (c : Context) : bool :=
  match Err c with Some _ => true | None => false end.

(** The method [cancel(_, err, cause)] of [cancelCtx]: nothing when already
    cancelled; a nil cause stands for [err]. *)
Definition cancel (err : error) (cause' : option error) (c : Context) : Context :=
  match Err c with
  | Some _ => c
  | None =>
      {| Err := Some err;
         cause := Some (match cause' with Some e => e | None => err end) |}
  end.

(** The [CancelCauseFunc] of [WithCancelCause]: [c.cancel(true, Canceled, cause)]. *)
Definition CancelCauseFunc (cause' : option error) (c : Context) : Context :=
  cancel Canceled cause' c.

(** A parent that ends cancels its child with its own [Err] and [Cause]. *)
Definition parentDone (parent : Context) (c : Context) : Context :=
  match Err parent with
  | Some e => cancel e (cause parent) c
  | None => c
  end.

(** [context.WithCancelCause(parent)]. *)
Definition WithCancelCause (parent : Context) : Context :=
  parentDone parent Background.

(** [context.Cause(c)]. *)
Definition Cause (c : Context) : option error := cause c.

End context.

(** ** SendCommand *)

(** The case taken by the first [select] of [SendCommand]. *)
Inductive submission : Type :=
| SubmitDone (err : error)      (* case <-ctx.Done(), with ctx.Err() *)
| Submitted.                    (* case l.send <- command *)

(** The case taken by its second [select]. *)
Inductive awaiting : Type :=
| WaitDone (err : error)            (* case <-ctx.Done(), with ctx.Err() *)
| Received (reply : CommandReply).  (* case reply := <-l.reply *)

Definition SendCommand {A : Type} `{Command A} (command : A)
    (s : submission) (a : awaiting) : go (CommandReply * option error) :=
  match s with
  | SubmitDone err => Ok (zeroReply, Some err)
  | Submitted =>
      match a with
      | WaitDone err => Ok (zeroReply, Some err)
      | Received reply =>
          name <- index (EncodeCommand command) 0 ;;
          if negb (Reply.Command reply =? name)%string then
            Ok (reply, Some (Errorf_q "unexpected reply command" (Reply.Command reply)))
          else if negb (Reply.Success reply) then
            Ok (reply, Some ErrUnsuccessfulCommand)
          else Ok (reply, None)
      end
  end.

(** ** The write/dispatch loop of Start *)

(** The value of the variable [sendingCh]: [r.send] or [nil]. *)
Inductive chanRef : Type := r_send | nil.

(** Where the loop stands: at the [select] of the [for], at the inner
    [select] with the reply in hand, or returned. *)
Inductive loopState : Type :=
| Selecting (sendingCh : chanRef)
| Routing (sendingCh : chanRef) (reply : CommandReply)
| Returned.

(** The case a [select] of the loop takes. *)
Inductive loopEvent : Type :=
| Done                                            (* case <-ctx.Done() *)
| RecvCommand (cmd : command) (werr : option error)
    (* case cmd = <-sendingCh, and what io.WriteString returns *)
| RecvReply (reply : CommandReply)                (* case reply := <-repliesCh *)
| SentReply.                                      (* case r.reply <- reply *)

(** What the loop does to the outside. *)
Inductive action : Type :=
| Accept (cmd : command)           (* a command received from r.send *)
| Write (raw : string)             (* a line written to the socket *)
| LogWriteError (err : error)
| LogInfo (msg : string)
| Cancel (cause : option error)    (* cancel(cause) *)
| Deliver (reply : CommandReply).  (* a reply sent on r.reply *)

(** One iteration; [None] when the case cannot be taken: a receive from a
    nil channel never proceeds. *)
Definition step (s : loopState) (e : loopEvent) : option (loopState * list action) :=
  match s, e with
  | Selecting _, Done => Some (Returned, [Cancel None])
  | Selecting r_send, RecvCommand cmd werr =>
      let raw := (strings.Join (encode cmd) " " ++ String "010" "")%string in
      match werr with
      | Some err =>
          Some (Returned, [Accept cmd; LogWriteError err; Cancel (Some err); Cancel None])
      | None => Some (Selecting nil, [Accept cmd; Write raw])
      end
  | Selecting ch, RecvReply reply =>
      if (Reply.Command reply =? "SIGHUP")%string
      then Some (Selecting ch, [LogInfo "lircd has been reloaded"])
      else Some (Routing ch reply, [])
  | Routing _ _, Done => Some (Returned, [Cancel None])
  | Routing _ reply, SentReply => Some (Selecting r_send, [Deliver reply])
  | _, _ => None
  end.

Fixpoint run (s : loopState) (evs : list loopEvent) : option (loopState * list action) :=
  match evs with
  | [] => Some (s, [])
  | e :: rest =>
      match step s e with
      | None => None
      | Some (s1, a1) =>
          match run s1 rest with
          | None => None
          | Some (s2, a2) => Some (s2, (a1 ++ a2)%list)
          end
      end
  end.

(** The loop starts with [sendingCh := r.send]. *)
Definition loopStart : loopState := Selecting r_send.

(** ** Start *)

(** A call that cancels the context of the connection: the caller's
    context ends, or a loop calls [cancel(cause)]. *)
Inductive canceller : Type :=
| ParentDone (parent : context.Context)
| LoopCancel (cause : option error).

Definition cancelBy (k : canceller) (c : context.Context) : context.Context :=
  match k with
  | ParentDone p => context.parentDone p c
  | LoopCancel cause => context.CancelCauseFunc cause c
  end.

(** What the goroutine of [Start] does, in order. *)
Inductive startStep : Type :=
| Dial            (* r.dialer(ctx) *)
| SpawnLoops      (* the two go statements *)
| AwaitDone       (* <-ctx.Done() *)
| CloseConn       (* conn.Close() *)
| WaitLoops.      (* wg.Wait(), also the deferred one *)

(** What [Start] meets: the dialer's error, the caller's context as it is
    at the call, the cancellations that reach the context afterwards, the
    error of [conn.Close()], and, for a [Close] that failed and may have
    left the stream open, whether both loops return all the same, so
    that the deferred [wg.Wait()] ends. *)
Record startEnv : Type := {
  dialErr : option error;
  parent : context.Context;
  cancels : list canceller;
  closeErr : option error;
  loopsEnd : bool
}.

Inductive startOutcome : Type :=
| StartBlocked (trace : list startStep)
| StartReturns (trace : list startStep) (err : option error).

Definition finalContext (env : startEnv) : context.Context :=
  fold_left (fun c k => cancelBy k c) (cancels env)
            (context.WithCancelCause (parent env)).

Definition Start (env : startEnv) : startOutcome :=
  match dialErr env with
  | Some err =>
      StartReturns [Dial] (Some (Errorf_w "cannot dial lircd connection" err))
  | None =>
      let ctx := finalContext env in
      if context.Done ctx then
        match closeErr env with
        | Some err =>
            if loopsEnd env then
              StartReturns [Dial; SpawnLoops; AwaitDone; CloseConn; WaitLoops]
                (Some (Errorf_w "error closing lircd connection" err))
            else StartBlocked [Dial; SpawnLoops; AwaitDone; CloseConn; WaitLoops]
        | None =>
            StartReturns [Dial; SpawnLoops; AwaitDone; CloseConn; WaitLoops]
              (context.Cause ctx)
        end
      else StartBlocked [Dial; SpawnLoops; AwaitDone]
  end.

(** ** The context and the reply channel, shared by the two loops *)

(** The context, the dispatch loop, and whether the dispatch loop is
    blocked in its [select]: it blocks only when no case can proceed, and
    closing [Done] wakes every [select] blocked on it. *)
Record conn : Type := {
  ctx : context.Context;
  writer : loopState;
  parked : bool
}.

Definition connStart (p : context.Context) : conn :=
  {| ctx := context.WithCancelCause p; writer := loopStart; parked := false |}.

Definition cancelled (acts : list action) (c : context.Context) : context.Context :=
  fold_left (fun c a => match a with
                        | Cancel cause => context.CancelCauseFunc cause c
                        | _ => c
                        end) acts c.

Inductive connStep : conn -> conn -> Prop :=
| conn_cancel (c : conn) (k : canceller) :
    context.Done (cancelBy k (ctx c)) = true ->
    connStep c {| ctx := cancelBy k (ctx c);
                  writer := if parked c then Returned else writer c;
                  parked := false |}
| conn_park (c : conn) :
    context.Done (ctx c) = false ->
    writer c <> Returned ->
    connStep c {| ctx := ctx c; writer := writer c; parked := true |}
| conn_take (c : conn) (e : loopEvent) (w : loopState) (acts : list action) :
    step (writer c) e = Some (w, acts) ->
    (e = Done -> context.Done (ctx c) = true) ->
    connStep c {| ctx := cancelled acts (ctx c); writer := w; parked := false |}.

Inductive reachable (p : context.Context) : conn -> Prop :=
| reach_start : reachable p (connStart p)
| reach_step (c c' : conn) : reachable p c -> connStep c c' -> reachable p c'.

(** The cases that the [select] of [flushReply] can take when the reader
    reaches it: [Done] is closed, or the dispatch loop is blocked in the
    [select] that receives from [repliesCh]. *)
Definition canProceed (c : conn) (sel : selected) : bool :=
  match sel with
  | CtxDone => context.Done (ctx c)
  | Sent => parked c && match writer c with Selecting _ => true | _ => false end
  end.

(** A line that ends a reply transaction. *)
Definition completes (r : lircReader) (line : string) : bool :=
  match state r with
  | stateStatus | stateDataStart | stateDataEnd => (line =? "END")%string
  | _ => false
  end.

(** ** Words of the specification *)

(** A token of an event line: no space in it. *)
Fixpoint noSpace (s : string) : bool :=
  match s with
  | EmptyString => true
  | String c rest => negb (Ascii.eqb c " ") && noSpace rest
  end.

Fixpoint allDigits (s : string) : bool :=
  match s with
  | EmptyString => true
  | String c rest =>
      let n := Z.of_nat (nat_of_ascii c) in
      (48 <=? n) && (n <=? 57) && allDigits rest
  end.

(** A non-negative decimal: one digit or more, nothing else. *)
Definition isDecimal (s : string) : bool :=
  match s with
  | EmptyString => false
  | _ => allDigits s
  end.

(** The value of the digits of [s] after the value [acc] of those before. *)
Fixpoint decimalFrom (s : string) (acc : Z) : Z :=
  match s with
  | EmptyString => acc
  | String c rest => decimalFrom rest (acc * 10 + (Z.of_nat (nat_of_ascii c) - 48))
  end.

Definition decimalValue (s : string) : Z := decimalFrom s 0.

(** The event line made of four tokens. *)
Definition eventLine (code repeat button remote : string) : string :=
  (code ++ " " ++ repeat ++ " " ++ button ++ " " ++ remote)%string.

(** The little-endian 16-bit value of the first two bytes of [c]. *)
Definition littleEndian16 (c : list Z) : Z := nth 0 c 0 + 256 * nth 1 c 0.

(** [sendingCh] of a loop that has not returned. *)
Definition sendingChOf (s : loopState) : option chanRef :=
  match s with
  | Selecting ch | Routing ch _ => Some ch
  | Returned => None
  end.

(** Whether a written command still waits for its reply at the end of a
    trace of the loop, [b] telling whether one did at its beginning. *)
Fixpoint pending (b : bool) (acts : list action) : bool :=
  match acts with
  | [] => b
  | Write _ :: rest => pending true rest
  | Deliver _ :: rest => pending false rest
  | _ :: rest => pending b rest
  end.

(** The gate over a trace: no command accepted while one is pending, and
    no reload notification delivered. *)
Fixpoint gated (b : bool) (acts : list action) : bool :=
  match acts with
  | [] => true
  | Accept _ :: rest => negb b && gated b rest
  | Write _ :: rest => gated true rest
  | Deliver r :: rest => negb (Reply.Command r =? "SIGHUP")%string && gated false rest
  | _ :: rest => gated b rest
  end.

(** The command of the example: [lirc.List{RemoteControl: "DenonTuner"}]. *)
Definition listDenonTuner : List := {| RemoteControl := "DenonTuner" |}.

Definition mkReader (st : connectionState) (rp : CommandReply) (dc dl : Z) : lircReader :=
  {| state := st; reply := rp; dataCount := dc; dataLength := dl |}.

Definition mkReply (c : string) (ok : bool) (d : list string) : CommandReply :=
  {| Reply.Command := c; Reply.Success := ok; Reply.Data := d |}.

(** A run of the loop: VERSION is sent, the daemon reloads, the reply
    comes and is routed, LIST DenonTuner is sent. *)
Definition exampleEvents : list loopEvent :=
  [RecvCommand (Pack Build_Version) None;
   RecvReply (mkReply "SIGHUP" true []);
   RecvReply (mkReply "VERSION" true ["0.10.2"; "END"]);
   SentReply;
   RecvCommand (Pack listDenonTuner) None].

Definition exampleTrace : list action :=
  [Accept (Pack Build_Version);
   Write (String.append "VERSION" (String "010" ""));
   LogInfo "lircd has been reloaded";
   Deliver (mkReply "VERSION" true ["0.10.2"; "END"]);
   Accept (Pack listDenonTuner);
   Write (String.append "LIST DenonTuner" (String "010" ""))].

(** The caller's context after its plain [cancel()]. *)
Definition cancelledParent : context.Context :=
  context.cancel Canceled None context.Background.

(** The cause that a cancellation records when it is the first. *)
Definition causeOf (k : canceller) : option error :=
  match k with
  | ParentDone p =>
      match context.Err p with
      | Some e => Some (match context.cause p with Some c => c | None => e end)
      | None => None
      end
  | LoopCancel (Some e) => Some e
  | LoopCancel None => Some Canceled
  end.

(** A byte. *)
Definition isByte (b : Z) : Prop := 0 <= b < 256.

(** What ties the state of the loop to its trace: [sendingCh] is nil
    exactly while a written command waits for its reply, and the reply in
    hand at the inner select is no reload notification. *)
Definition slot (b : bool) (s : loopState) : Prop :=
  match s with
  | Selecting ch => (ch = nil <-> b = true)
  | Routing ch rp =>
      (ch = nil <-> b = true) /\ (Reply.Command rp =? "SIGHUP")%string = false
  | Returned => True
  end.

(** A context that is done has a cause. *)
Definition caused (c : context.Context) : Prop :=
  context.Done c = true -> exists e, context.cause c = Some e.

(** ** RepeatButton *)

(** [RepeatButton(ctx, remote, button)], given the cases that the selects
    of its [SendCommand] take.  The callback it returns does one thing,
    [l.SendCommand(ctx, SendStop{remote, button})]: it is given here as
    the command it sends; no callback is [nil]. *)
Definition RepeatButton (remote button : string) (s : submission) (a : awaiting)
  : go (option SendStop * option error) :=
  p <- SendCommand {| ss_RemoteControl := remote; ss_ButtonName := button |} s a ;;
  match snd p with
  | Some err => Ok (None, Some err)
  | None => Ok (Some {| sp_RemoteControl := remote; sp_ButtonName := button |}, None)
  end.

(** ** The read loop of Start *)

(** How the scanner stops: at the end of the stream, or with an error,
    of which [errors.Is(err, net.ErrClosed)] is known. *)
Inductive scanEnd : Type :=
| ScanEOF
| ScanErr (err : error) (isClosed : bool).

(** What the read loop does to the outside: what [read] does, the record
    of a read error, and its calls of [cancel]. *)
Inductive readAction : Type :=
| Fed (e : effect)
| LogReadError (err : error)
| ReadCancel (cause : option error).

(** The goroutine of the read loop: every line scanned goes to [read];
    a scanner error that is not the closed socket is logged and given to
    [cancel]; the deferred [cancel(nil)] comes last. *)
Definition readLoop (r : lircReader) (lines : list (string * selected))
    (e : scanEnd) : go (lircReader * list readAction) :=
  p <- feed r lines ;;
  let fed := map Fed (snd p) in
  match e with
  | ScanErr err false =>
      Ok (fst p, (fed ++ [LogReadError err; ReadCancel (Some err); ReadCancel None])%list)
  | _ => Ok (fst p, (fed ++ [ReadCancel None])%list)
  end.

(** The calls of [cancel] of each loop, as they reach the context. *)
Definition readCancels (acts : list readAction) : list canceller :=
  flat_map (fun a => match a with
                     | ReadCancel cause => [LoopCancel cause]
                     | _ => []
                     end) acts.


(** ** RouteEvents *)

Section Routing.

(** The values of type [ButtonHandler] that are not nil. *)
Variable Handler : Type.

(** The boolean that [filepath.Match(pattern, name)] returns; its error is
    dropped by the code, and comes with [false]. *)
Variable Match : string -> string -> bool.

(** The two maps, as the pairs that a [range] over them yields, in the
    order in which it yields them; a nil handler is [None]. *)
Definition ButtonHandlers : Type := list (string * option Handler).
Definition RemoteHandlers : Type := list (string * ButtonHandlers).

(** [m[key]] on a map: the zero value when the key is missing. *)
Fixpoint lookup {V : Type} (m : list (string * V)) (key : string) : option V :=
  match m with
  | [] => None
  | (k, v) :: rest => if (k =? key)%string then Some v else lookup rest key
  end.

(** [handlers[remote][button]]: nil when either key is missing. *)
Definition exactHandler (handlers : RemoteHandlers) (remote button : string)
  : option Handler :=
  match lookup handlers remote with
  | Some bhs => match lookup bhs button with
                | Some h => h
                | None => None
                end
  | None => None
  end.

(** The calls made for one event: all of them, or those made before the
    call of a nil handler, which panics. *)
Inductive routed : Type :=
| Called (calls : list (Handler * ButtonPress))
| NilCall (calls : list (Handler * ButtonPress)).

Definition andThen (a b : routed) : routed :=
  match a with
  | NilCall c => NilCall c
  | Called c =>
      match b with
      | Called d => Called (c ++ d)
      | NilCall d => NilCall (c ++ d)
      end
  end.

(** The inner [range], over the buttons of one remote. *)
Fixpoint routeButtons (bhs : ButtonHandlers) (event : ButtonPress) : routed :=
  match bhs with
  | [] => Called []
  | (button, h) :: rest =>
      if Match button (ButtonName event) then
        match h with
        | None => NilCall []
        | Some f => andThen (Called [(f, event)]) (routeButtons rest event)
        end
      else routeButtons rest event
  end.

(** The outer [range], over the remotes. *)
Fixpoint routeRemotes (hs : RemoteHandlers) (event : ButtonPress) : routed :=
  match hs with
  | [] => Called []
  | (remote, bhs) :: rest =>
      if Match remote (RemoteControlName event)
      then andThen (routeButtons bhs event) (routeRemotes rest event)
      else routeRemotes rest event
  end.

(** The body of [case event := <-events]. *)
Definition routeEvent (handlers : RemoteHandlers) (event : ButtonPress) : routed :=
  match exactHandler handlers (RemoteControlName event) (ButtonName event) with
  | Some h => Called [(h, event)]
  | None => routeRemotes handlers event
  end.

(** [RouteEvents]: the events received before the context is done, then
    [ctx.Err()]; no error comes back from a run that panics. *)
Fixpoint RouteEvents (handlers : RemoteHandlers) (events : list ButtonPress)
    (ctxErr : error) : routed * option error :=
  match events with
  | [] => (Called [], Some ctxErr)
  | event :: rest =>
      match routeEvent handlers event with
      | NilCall c => (NilCall c, None)
      | Called c =>
          let (r, err) := RouteEvents handlers rest ctxErr in
          (andThen (Called c) r, err)
      end
  end.

(** The handlers under patterns that match the event, nil ones included,
    in the order of the two [range]s. *)
Definition matchingButtons (bhs : ButtonHandlers) (event : ButtonPress)
  : list (option Handler) :=
  map snd (filter (fun p => Match (fst p) (ButtonName event)) bhs).

Definition matching (hs : RemoteHandlers) (event : ButtonPress)
  : list (option Handler) :=
  flat_map (fun p => matchingButtons (snd p) event)
           (filter (fun p => Match (fst p) (RemoteControlName event)) hs).

(** The calls of a run of handlers, up to the first nil one. *)
Fixpoint callAll (hs : list (option Handler)) (event : ButtonPress) : routed :=
  match hs with
  | [] => Called []
  | None :: _ => NilCall []
  | Some f :: rest => andThen (Called [(f, event)]) (callAll rest event)
  end.

End Routing.

Arguments Called {Handler} calls.
Arguments NilCall {Handler} calls.

(** ** More words for the statements *)

(** The replies that the loop receives, and those it delivers. *)
Definition received (evs : list loopEvent) : list CommandReply :=
  flat_map (fun e => match e with RecvReply rp => [rp] | _ => [] end) evs.

Definition delivered (acts : list action) : list CommandReply :=
  flat_map (fun a => match a with Deliver rp => [rp] | _ => [] end) acts.

Definition written (acts : list action) : list string :=
  flat_map (fun a => match a with Write raw => [raw] | _ => [] end) acts.

Definition notReload (rp : CommandReply) : bool :=
  negb (Reply.Command rp =? "SIGHUP")%string.

(** The reply that the loop holds at its inner select. *)
Definition inHand (s : loopState) : list CommandReply :=
  match s with
  | Routing _ rp => [rp]
  | _ => []
  end.

(** A reply is one of the three kinds of effect of [read]. *)
Definition isLog (e : effect) : bool :=
  match e with LogError _ _ => true | _ => false end.

(** The status line of a reply. *)
Definition statusLine (ok : bool) : string := if ok then "SUCCESS" else "ERROR".

(** A match function for the examples: the pattern [*] or the name itself. *)
Definition starOrSame (pattern name : string) : bool :=
  (pattern =? "*")%string || (pattern =? name)%string.

(** One for a pending command. *)
Definition flag (b : bool) : nat := if b then 1%nat else 0%nat.

(** ** Start and its two loops, step by step *)












(** * Theorems *)

(** ** The reader on whole transactions *)

(** In [stateData] the reader keeps every line it is given, and leaves the
    state only after one line more than the declared length. *)
Lemma collect_one_more (ls : list string) :
  forall (rp : CommandReply) (k n : Z),
    0 <= k <= n ->
    slen ls = n - k + 1 ->
    feed (mkReader stateData rp k n) (sent ls) =
    Ok (mkReader stateDataEnd
          (mkReply (Reply.Command rp) (Reply.Success rp) (Reply.Data rp ++ ls)%list)
          (n + 1) n, []).
Proof.
  induction ls as [|l ls IH]; intros rp k n Hk Hlen.
  - unfold slen in Hlen; simpl in Hlen; lia.
  - unfold slen in Hlen; simpl List.length in Hlen.
    rewrite Nat2Z.inj_succ in Hlen.
    simpl. unfold read; simpl.
    destruct (n <? k + 1) eqn:E.
    + apply Z.ltb_lt in E.
      assert (ls = []) by (destruct ls; [reflexivity | simpl in Hlen; lia]).
      subst ls; simpl. unfold mkReader, mkReply, with_state; simpl.
      replace (k + 1) with (n + 1) by lia. reflexivity.
    + apply Z.ltb_ge in E. simpl.
      specialize (IH (mkReply (Reply.Command rp) (Reply.Success rp)
                        (Reply.Data rp ++ [l])%list) (k + 1) n).
      unfold mkReader, mkReply in IH |- *; simpl in IH |- *.
      rewrite IH by (unfold slen; lia).
      simpl. rewrite <- app_assoc. reflexivity.
Qed.

(** C1 (the code against the claim).  On the lines of scenario A the reader
    delivers nothing: with a declared length of 1 it stores the payload
    line and the [END] after it, and then stands in [stateDataEnd]; one
    more [END] makes it deliver a reply whose data is ["0.10.2"; "END"]. *)
Theorem scenarioA_stores_terminator :
  feed newLircReader
       (sent ["BEGIN"; "VERSION"; "SUCCESS"; "DATA"; "1"; "0.10.2"; "END"]) =
  Ok (mkReader stateDataEnd (mkReply "VERSION" true ["0.10.2"; "END"]) 2 1, [])
  /\
  feed newLircReader
       (sent ["BEGIN"; "VERSION"; "SUCCESS"; "DATA"; "1"; "0.10.2"; "END"; "END"]) =
  Ok (mkReader stateReceive (mkReply "VERSION" true ["0.10.2"; "END"]) 2 1,
      [SendReply (mkReply "VERSION" true ["0.10.2"; "END"])]).
Proof. split; reflexivity. Qed.

(** ** Reply correlation in SendCommand *)

(** The reader hands over whatever line follows [BEGIN] as the command
    name of the reply. *)
Lemma error_reply_delivered (header : string) :
  feed newLircReader (sent ["BEGIN"; header; "ERROR"; "END"]) =
  Ok (mkReader stateReceive (mkReply header false []) 0 0,
      [SendReply (mkReply header false [])]).
Proof. reflexivity. Qed.

(** The dispatch loop, waiting for a reply, routes one that is no reload
    notification to the caller and takes commands again. *)
Lemma reply_routed (rp : CommandReply) :
  (Reply.Command rp =? "SIGHUP")%string = false ->
  run (Selecting nil) [RecvReply rp; SentReply] = Some (Selecting r_send, [Deliver rp]).
Proof. intros H. simpl. rewrite H. reflexivity. Qed.

(** C2, as the claim states it, fails: the reply to [LIST DenonTuner] whose
    header echoes the whole line reaches [SendCommand] with success false,
    and [SendCommand] returns the correlation error, which is not the
    sentinel. *)
Lemma list_reply_not_sentinel :
  EncodeCommand listDenonTuner = ["LIST"; "DenonTuner"] /\
  feed newLircReader (sent ["BEGIN"; "LIST DenonTuner"; "ERROR"; "END"]) =
    Ok (mkReader stateReceive (mkReply "LIST DenonTuner" false []) 0 0,
        [SendReply (mkReply "LIST DenonTuner" false [])]) /\
  run (Selecting nil) [RecvReply (mkReply "LIST DenonTuner" false []); SentReply] =
    Some (Selecting r_send, [Deliver (mkReply "LIST DenonTuner" false [])]) /\
  SendCommand listDenonTuner Submitted (Received (mkReply "LIST DenonTuner" false [])) <>
    Ok (mkReply "LIST DenonTuner" false [], Some ErrUnsuccessfulCommand).
Proof. repeat split; try reflexivity. discriminate. Qed.

(** C2 (amended).  For the command with tokens ["LIST"; "DenonTuner"]: the
    loop writes its line and waits; the reply transaction with header
    "LIST DenonTuner", status ERROR and no data yields a reply with
    success false, which the loop routes to the caller, and on it
    [SendCommand] returns the correlation error, the header not being
    the first token "LIST"; the same transaction with the header "LIST"
    is routed as well, and on it [SendCommand] returns the sentinel. *)
Theorem list_error_reply :
  EncodeCommand listDenonTuner = ["LIST"; "DenonTuner"] /\
  feed newLircReader (sent ["BEGIN"; "LIST DenonTuner"; "ERROR"; "END"]) =
    Ok (mkReader stateReceive (mkReply "LIST DenonTuner" false []) 0 0,
        [SendReply (mkReply "LIST DenonTuner" false [])]) /\
  run loopStart [RecvCommand (Pack listDenonTuner) None;
                 RecvReply (mkReply "LIST DenonTuner" false []); SentReply] =
    Some (Selecting r_send,
          [Accept (Pack listDenonTuner);
           Write (String.append "LIST DenonTuner" (String "010" ""));
           Deliver (mkReply "LIST DenonTuner" false [])]) /\
  SendCommand listDenonTuner Submitted (Received (mkReply "LIST DenonTuner" false [])) =
    Ok (mkReply "LIST DenonTuner" false [],
        Some (Errorf_q "unexpected reply command" "LIST DenonTuner")) /\
  feed newLircReader (sent ["BEGIN"; "LIST"; "ERROR"; "END"]) =
    Ok (mkReader stateReceive (mkReply "LIST" false []) 0 0,
        [SendReply (mkReply "LIST" false [])]) /\
  run loopStart [RecvCommand (Pack listDenonTuner) None;
                 RecvReply (mkReply "LIST" false []); SentReply] =
    Some (Selecting r_send,
          [Accept (Pack listDenonTuner);
           Write (String.append "LIST DenonTuner" (String "010" ""));
           Deliver (mkReply "LIST" false [])]) /\
  SendCommand listDenonTuner Submitted (Received (mkReply "LIST" false [])) =
    Ok (mkReply "LIST" false [], Some ErrUnsuccessfulCommand).
Proof. repeat split; reflexivity. Qed.

(** ** Lines that make the reader panic *)

(** C3 (the code against the claim).  In [stateReceive] a line that is not
    BEGIN and has fewer than four fields makes [read] panic as soon as
    its code field decodes: the empty line and a lone code at [w[1]], a
    line of two fields at [w[2]], a line of three at [w[3]]. *)
Theorem short_event_line_panics (sel : selected) (rp : CommandReply) (dc dl : Z) :
  read sel (mkReader stateReceive rp dc dl) "" = Panic (IndexOutOfRange 1 1) /\
  read sel (mkReader stateReceive rp dc dl) "000000000000002a" =
    Panic (IndexOutOfRange 1 1) /\
  read sel (mkReader stateReceive rp dc dl) "000000000000002a 0" =
    Panic (IndexOutOfRange 2 2) /\
  read sel (mkReader stateReceive rp dc dl) "000000000000002a 0 KEY_POWER" =
    Panic (IndexOutOfRange 3 3).
Proof. repeat split; reflexivity. Qed.

(** Outside [stateReceive] and [stateDataLength] no line makes [read]
    panic. *)
Lemma read_returns_elsewhere (sel : selected) (r : lircReader) (line : string) :
  state r <> stateReceive ->
  state r <> stateDataLength ->
  exists r' out, read sel r line = Ok (r', out).
Proof.
  intros H1 H2. unfold read.
  destruct (state r); try contradiction;
    cbv zeta;
    repeat match goal with
           | |- context [if ?b then _ else _] => destruct b
           end;
    do 2 eexists; reflexivity.
Qed.

(** C4 (the code against the claim).  In [stateDataLength] a negative
    length is no parse error for [Atoi]: the reader goes on to
    [make([]string, 0, -1)], which panics. *)
Theorem negative_length_panics (sel : selected) (rp : CommandReply) (dc dl : Z) :
  strconv.Atoi "-1" = (-1, None) /\
  read sel (mkReader stateDataLength rp dc dl) "-1" = Panic MakesliceCapOutOfRange.
Proof. split; reflexivity. Qed.

(** ** The dispatch loop *)

(** C6.  A reply named SIGHUP received at the outer select is logged and the
    loop goes round: it stands at the same select with the same
    [sendingCh], and nothing is sent on [r.reply]. *)
Theorem sighup_leaves_slot (ch : chanRef) (ok : bool) (data : list string) :
  step (Selecting ch) (RecvReply (mkReply "SIGHUP" ok data)) =
  Some (Selecting ch, [LogInfo "lircd has been reloaded"]).
Proof. destruct ch; reflexivity. Qed.

(** ** BEGIN in each state *)

(** C9.  BEGIN opens a transaction in [stateReceive]; in [stateReply] it is
    the command name, in [stateData] it is one more data line, in
    [stateStatus], [stateDataStart] and [stateDataEnd] it is an error
    that resets the reader; and from no state but [stateReceive] does it
    lead to [stateReply]. *)
Theorem begin_in_each_state (sel : selected) (rp : CommandReply) (dc dl : Z) :
  read sel (mkReader stateReceive rp dc dl) "BEGIN" =
    Ok (mkReader stateReply zeroReply 0 0, []) /\
  read sel (mkReader stateReply rp dc dl) "BEGIN" =
    Ok (mkReader stateStatus (mkReply "BEGIN" true []) dc dl, []) /\
  read sel (mkReader stateData rp dc dl) "BEGIN" =
    Ok (mkReader (if dl <? dc + 1 then stateDataEnd else stateData)
          (mkReply (Reply.Command rp) (Reply.Success rp)
             (Reply.Data rp ++ ["BEGIN"])%list) (dc + 1) dl, []) /\
  read sel (mkReader stateStatus rp dc dl) "BEGIN" =
    Ok (mkReader stateReceive rp dc dl,
        [LogError "lirc reply message received has invalid status"
           [StrAttr "line" "BEGIN"]]) /\
  read sel (mkReader stateDataStart rp dc dl) "BEGIN" =
    Ok (mkReader stateReceive rp dc dl,
        [LogError "lirc reply message received has invalid data start"
           [StrAttr "line" "BEGIN"]]) /\
  read sel (mkReader stateDataEnd rp dc dl) "BEGIN" =
    Ok (mkReader stateReceive rp dc dl,
        [LogError "lirc reply message received has invalid data end, discarding reply"
           [StrAttr "line" "BEGIN"]]) /\
  (forall st : connectionState,
      st = stateReceive \/
      exists r' out, read sel (mkReader st rp dc dl) "BEGIN" = Ok (r', out) /\
                     state r' <> stateReply).
Proof.
  repeat split; try reflexivity.
  - unfold read; simpl. destruct (dl <? dc + 1); reflexivity.
  - intros st. destruct st; [left; reflexivity | right ..].
    all: try (eexists; eexists; split; [reflexivity | simpl; discriminate]).
    unfold read; simpl.
    destruct (dl <? dc + 1); eexists; eexists; (split; [reflexivity | simpl; discriminate]).
Qed.

(** ** One command in flight *)

Lemma pending_app (a1 a2 : list action) :
  forall b, pending b (a1 ++ a2) = pending (pending b a1) a2.
Proof.
  induction a1 as [|a a1 IH]; intros b; [reflexivity|].
  destruct a; simpl; apply IH.
Qed.

Lemma gated_app (a1 a2 : list action) :
  forall b, gated b (a1 ++ a2) = gated b a1 && gated (pending b a1) a2.
Proof.
  induction a1 as [|a a1 IH]; intros b; [reflexivity|].
  destruct a; simpl; rewrite ?IH, ?andb_assoc; reflexivity.
Qed.

Lemma step_slot (s s' : loopState) (e : loopEvent) (acts : list action) (b : bool) :
  step s e = Some (s', acts) ->
  slot b s ->
  gated b acts = true /\ slot (pending b acts) s'.
Proof.
  intros Hstep Hs.
  destruct s as [[|] | ch rp |]; destruct e as [| cmd werr | reply |];
    simpl in Hstep; try discriminate.
  - inversion Hstep; subst; simpl; auto.
  - assert (b = false).
    { destruct b; [|reflexivity]. destruct Hs as [_ Hs]. specialize (Hs eq_refl). discriminate. }
    subst b.
    destruct werr; inversion Hstep; subst; simpl; split; auto.
    split; reflexivity.
  - destruct (Reply.Command reply =? "SIGHUP")%string eqn:E;
      inversion Hstep; subst; simpl; auto.
  - inversion Hstep; subst; simpl; auto.
  - destruct (Reply.Command reply =? "SIGHUP")%string eqn:E;
      inversion Hstep; subst; simpl; auto.
  - inversion Hstep; subst; simpl; auto.
  - inversion Hstep; subst; simpl.
    destruct Hs as [_ Hrp]. rewrite Hrp. simpl. split; [reflexivity|].
    split; discriminate.
Qed.

Lemma run_slot (evs : list loopEvent) :
  forall (s s' : loopState) (acts : list action) (b : bool),
    run s evs = Some (s', acts) ->
    slot b s ->
    gated b acts = true /\ slot (pending b acts) s'.
Proof.
  induction evs as [|e evs IH]; intros s s' acts b Hrun Hs; simpl in Hrun.
  - inversion Hrun; subst; simpl; auto.
  - destruct (step s e) as [[s1 a1]|] eqn:E1; [|discriminate].
    destruct (run s1 evs) as [[s2 a2]|] eqn:E2; [|discriminate].
    inversion Hrun; subst.
    destruct (step_slot _ _ _ _ _ E1 Hs) as [G1 S1].
    destruct (IH _ _ _ _ E2 S1) as [G2 S2].
    rewrite gated_app, pending_app, G1, G2. auto.
Qed.

(** A gated trace with a command accepted after a write has a delivery in
    between. *)
Lemma gated_accept_after_write (mid post : list action) (cmd : command) :
  gated true (mid ++ Accept cmd :: post) = true ->
  exists rp, In (Deliver rp) mid /\ Reply.Command rp <> "SIGHUP".
Proof.
  induction mid as [|a mid IH]; simpl; intros H.
  - discriminate.
  - destruct a; simpl in H;
      try (destruct (IH H) as [rp [Hin Hne]]; exists rp; split; [right; exact Hin | exact Hne]).
    + discriminate.
    + apply andb_prop in H. destruct H as [H _].
      exists reply0. split; [left; reflexivity|].
      intros Heq. rewrite Heq in H. discriminate.
Qed.

Lemma pending_no_delivery (mid : list action) :
  (forall rp, ~ In (Deliver rp) mid) -> pending true mid = true.
Proof.
  induction mid as [|a mid IH]; intros H; [reflexivity|].
  destruct a; simpl;
    try (apply IH; intros rp Hin; apply (H rp); right; exact Hin).
  exfalso. apply (H reply0). left; reflexivity.
Qed.

(** C5.  In every run of the dispatch loop from its start: a command
    accepted after a line was written comes after a delivery, in between,
    of a reply that is no reload notification; and while no reply has been
    delivered since the last write, the loop, unless it has returned,
    holds [sendingCh = nil], on which no command can be received. *)
Theorem one_in_flight (evs : list loopEvent) (s : loopState) (acts : list action) :
  run loopStart evs = Some (s, acts) ->
  (forall pre raw mid cmd post,
      acts = (pre ++ Write raw :: mid ++ Accept cmd :: post)%list ->
      exists rp, In (Deliver rp) mid /\ Reply.Command rp <> "SIGHUP") /\
  (forall pre raw mid,
      acts = (pre ++ Write raw :: mid)%list ->
      (forall rp, ~ In (Deliver rp) mid) ->
      (s = Returned \/ sendingChOf s = Some nil) /\
      forall cmd werr, step s (RecvCommand cmd werr) = None).
Proof.
  intros Hrun.
  assert (Hstart : slot false loopStart) by (simpl; split; discriminate).
  destruct (run_slot _ _ _ _ _ Hrun Hstart) as [G S].
  split.
  - intros pre raw mid cmd post ->.
    rewrite gated_app in G. apply andb_prop in G. destruct G as [_ G].
    simpl in G. apply (gated_accept_after_write mid post cmd G).
  - intros pre raw mid -> Hno.
    rewrite pending_app in S. simpl in S.
    rewrite (pending_no_delivery mid Hno) in S.
    destruct s as [ch | ch rp |]; simpl in S.
    + assert (ch = nil) by (apply S; reflexivity). subst ch.
      split; [right; reflexivity | reflexivity].
    + destruct S as [S _].
      assert (ch = nil) by (apply S; reflexivity). subst ch.
      split; [right; reflexivity | reflexivity].
    + split; [left; reflexivity | reflexivity].
Qed.

(** The run of the example obeys the gate: the delivery of the VERSION
    reply stands between the first write and the second command. *)
Lemma one_in_flight_witness :
  run loopStart exampleEvents = Some (Selecting nil, exampleTrace) /\
  (exists rp, In (Deliver rp)
                 [LogInfo "lircd has been reloaded";
                  Deliver (mkReply "VERSION" true ["0.10.2"; "END"])] /\
              Reply.Command rp <> "SIGHUP").
Proof.
  split; [reflexivity|].
  apply (proj1 (one_in_flight exampleEvents (Selecting nil) exampleTrace eq_refl)
           [Accept (Pack Build_Version)]
           (String.append "VERSION" (String "010" ""))
           [LogInfo "lircd has been reloaded";
            Deliver (mkReply "VERSION" true ["0.10.2"; "END"])]
           (Pack listDenonTuner)
           [Write (String.append "LIST DenonTuner" (String "010" ""))]).
  reflexivity.
Defined.

(** ** The value that Start returns *)

Lemma cancelBy_done (k : canceller) (c : context.Context) :
  context.Done c = true -> cancelBy k c = c.
Proof.
  unfold context.Done. destruct c as [[e|] ca]; [|discriminate]. intros _.
  destruct k as [p | cause']; simpl.
  - unfold context.parentDone. destruct (context.Err p); reflexivity.
  - reflexivity.
Qed.

Lemma cancels_done (ks : list canceller) (c : context.Context) :
  context.Done c = true -> fold_left (fun c k => cancelBy k c) ks c = c.
Proof.
  induction ks as [|k ks IH]; intros H; simpl; [reflexivity|].
  rewrite (cancelBy_done k c H). apply IH, H.
Qed.

Lemma cancel_caused (err : error) (cause' : option error) (c : context.Context) :
  caused c -> caused (context.cancel err cause' c).
Proof.
  unfold caused, context.cancel, context.Done.
  destruct (context.Err c) eqn:E; intros H; simpl.
  - rewrite E. exact H.
  - intros _. eexists; reflexivity.
Qed.

Lemma cancelBy_caused (k : canceller) (c : context.Context) :
  caused c -> caused (cancelBy k c).
Proof.
  destruct k as [p | cause']; simpl; intros H.
  - unfold context.parentDone. destruct (context.Err p); [apply cancel_caused|]; exact H.
  - apply cancel_caused, H.
Qed.

Lemma cancels_caused (ks : list canceller) :
  forall c, caused c -> caused (fold_left (fun c k => cancelBy k c) ks c).
Proof.
  induction ks as [|k ks IH]; intros c H; simpl; [exact H|].
  apply IH, cancelBy_caused, H.
Qed.

Lemma finalContext_caused (env : startEnv) : caused (finalContext env).
Proof.
  apply cancels_caused. unfold context.WithCancelCause, context.parentDone.
  destruct (context.Err (parent env)).
  - apply cancel_caused. intros H; discriminate.
  - intros H; discriminate.
Qed.

(** The first cancellation that ends the context sets its cause. *)
Lemma first_cause_wins (env : startEnv) (k : canceller) (rest : list canceller) (e : error) :
  context.Err (parent env) = None ->
  cancels env = k :: rest ->
  causeOf k = Some e ->
  context.Done (finalContext env) = true /\
  context.Cause (finalContext env) = Some e.
Proof.
  intros Hp Hk He. unfold finalContext. rewrite Hk. simpl.
  unfold context.WithCancelCause, context.parentDone. rewrite Hp.
  assert (H : context.Done (cancelBy k context.Background) = true /\
              context.Cause (cancelBy k context.Background) = Some e).
  { destruct k as [p | [c|]]; simpl in *.
    - unfold context.parentDone. destruct (context.Err p); [|discriminate].
      simpl. split; [reflexivity|]. unfold context.Cause; simpl. exact He.
    - inversion He; subst. split; reflexivity.
    - inversion He; subst. split; reflexivity. }
  destruct H as [Hd Hc].
  rewrite (cancels_done rest _ Hd). split; assumption.
Qed.

(** ** Cancellation and the delivery of a reply *)

(** Once the context is done the dispatch loop is not blocked in a select. *)
Lemma done_not_parked (p : context.Context) (c : conn) :
  reachable p c -> context.Done (ctx c) = true -> parked c = false.
Proof.
  induction 1 as [|c c' Hr IH Hs]; [reflexivity|].
  destruct Hs as [c k Hd | c Hn Hw | c e w acts Hstep He]; simpl; intros H.
  - reflexivity.
  - rewrite Hn in H. discriminate.
  - reflexivity.
Qed.

(** C10.  When the context is done as a line ends a reply transaction, the
    select of [flushReply] does not block, since its first case can
    proceed; its send cannot proceed, no receiver being blocked on the
    channel; and whichever case it can take leaves the reader in
    [stateReceive] with nothing sent. *)
Theorem cancelled_reply_dropped (p : context.Context) (c : conn)
    (r : lircReader) (line : string) :
  reachable p c ->
  context.Done (ctx c) = true ->
  completes r line = true ->
  canProceed c CtxDone = true /\
  canProceed c Sent = false /\
  forall sel, canProceed c sel = true ->
              read sel r line = Ok (with_state r stateReceive, []).
Proof.
  intros Hr Hd Hc.
  pose proof (done_not_parked p c Hr Hd) as Hp.
  assert (Hsent : canProceed c Sent = false) by (simpl; rewrite Hp; reflexivity).
  split; [exact Hd | split; [exact Hsent|]].
  intros [|] Hsel; [|rewrite Hsent in Hsel; discriminate].
  unfold completes in Hc. unfold read.
  destruct (state r) eqn:Hst; try discriminate; apply String.eqb_eq in Hc; subst line;
    reflexivity.
Qed.

(** The dispatch loop blocks, the caller cancels, the reader then meets
    the END of a transaction: the reply is dropped. *)
Lemma cancelled_reply_dropped_witness :
  read CtxDone (mkReader stateDataEnd (mkReply "VERSION" true ["0.10.2"; "END"]) 2 1) "END" =
  Ok (mkReader stateReceive (mkReply "VERSION" true ["0.10.2"; "END"]) 2 1, []).
Proof.
  assert (Hr : reachable context.Background
                 {| ctx := cancelledParent; writer := Returned; parked := false |}).
  { apply (reach_step _ {| ctx := context.Background; writer := Selecting r_send;
                           parked := true |}).
    - apply (reach_step _ (connStart context.Background)); [apply reach_start|].
      apply (conn_park (connStart context.Background)); [reflexivity | discriminate].
    - apply (conn_cancel {| ctx := context.Background; writer := Selecting r_send;
                            parked := true |} (ParentDone cancelledParent)).
      reflexivity. }
  apply (proj2 (proj2 (cancelled_reply_dropped _ _
           (mkReader stateDataEnd (mkReply "VERSION" true ["0.10.2"; "END"]) 2 1) "END"
           Hr eq_refl eq_refl)) CtxDone eq_refl).
Defined.

(** ** Events *)

Lemma lor_shiftl (lo hi n : Z) :
  0 <= n -> 0 <= lo < 2 ^ n -> Z.lor lo (Z.shiftl hi n) = lo + hi * 2 ^ n.
Proof.
  intros Hn Hlo.
  assert (Hland : Z.land lo (Z.shiftl hi n) = 0).
  { apply Z.bits_inj'. intros m Hm. rewrite Z.land_spec, Z.bits_0.
    destruct (Z.ltb_spec m n) as [Hlt | Hge].
    - rewrite (Z.shiftl_spec_low hi n m Hlt). apply andb_false_r.
    - assert (Hbit : Z.testbit lo m = false).
      { destruct (Z.eq_dec lo 0) as [-> | Hne]; [apply Z.bits_0|].
        apply Z.bits_above_log2; [lia|].
        assert (Z.log2 lo < n) by (apply Z.log2_lt_pow2; lia). lia. }
      rewrite Hbit. reflexivity. }
  rewrite <- (Z.lxor_lor _ _ Hland), <- (Z.add_nocarry_lxor _ _ Hland).
  rewrite Z.shiftl_mul_pow2 by assumption. reflexivity.
Qed.

Lemma fromHexChar_range (c : ascii) (a : Z) :
  hex.fromHexChar c = Some a -> 0 <= a < 16.
Proof.
  unfold hex.fromHexChar. set (n := Z.of_nat (nat_of_ascii c)).
  destruct (Z.leb_spec 48 n), (Z.leb_spec n 57), (Z.leb_spec 97 n),
    (Z.leb_spec n 102), (Z.leb_spec 65 n), (Z.leb_spec n 70);
    simpl; intros Heq; inversion Heq; lia.
Qed.

Lemma Decode_pair (p q : ascii) (rest : string) :
  hex.Decode (String p (String q rest)) =
  match hex.fromHexChar p, hex.fromHexChar q with
  | None, _ => ([], Some (hex.InvalidByteError p))
  | Some _, None => ([], Some (hex.InvalidByteError q))
  | Some a, Some b =>
      let (bs, err) := hex.Decode rest in (Z.lor (Z.shiftl a 4) b :: bs, err)
  end.
Proof. reflexivity. Qed.

Lemma Decode_bytes (s : string) :
  (forall bs err, hex.Decode s = (bs, err) -> Forall isByte bs) /\
  (forall c bs err, hex.Decode (String c s) = (bs, err) -> Forall isByte bs).
Proof.
  induction s as [|q s [IH1 IH2]].
  - split.
    + intros bs err H. inversion H. constructor.
    + intros c bs err H. simpl in H.
      destruct (hex.fromHexChar c); inversion H; constructor.
  - split; [exact (IH2 q)|].
    intros c bs err H. rewrite Decode_pair in H.
    destruct (hex.fromHexChar c) as [a|] eqn:Ea; [|inversion H; constructor].
    destruct (hex.fromHexChar q) as [b|] eqn:Eb; [|inversion H; constructor].
    destruct (hex.Decode s) as [bs' err'] eqn:Es.
    apply pair_equal_spec in H. destruct H as [Hbs Herr]. subst bs err.
    constructor; [|apply (IH1 bs' err' eq_refl)].
    apply fromHexChar_range in Ea, Eb.
    rewrite Z.lor_comm, (lor_shiftl b a 4) by lia.
    unfold isByte. change (2 ^ 4) with 16. lia.
Qed.

(** The 16-bit code read off eight decoded bytes. *)
Lemma Uint16_decoded (s : string) (c : list Z) (err : option hex.error) :
  hex.DecodeString s = (c, err) ->
  slen c = 8 ->
  binary.Uint16 c = Ok (littleEndian16 c).
Proof.
  intros Hd Hlen.
  pose proof (proj1 (Decode_bytes s) c err Hd) as Hb.
  destruct c as [|b0 [|b1 c]]; try (unfold slen in Hlen; simpl in Hlen; lia).
  inversion Hb as [|? ? Hb0 Hb']; subst. unfold isByte in Hb0.
  unfold binary.Uint16, littleEndian16, index. cbn [nth_error bind nth].
  rewrite (lor_shiftl b0 b1 8) by (change (2 ^ 8) with 256; lia).
  change (2 ^ 8) with 256. f_equal. lia.
Qed.

Lemma decimalFrom_ge (s : string) :
  forall n, allDigits s = true -> 0 <= n -> n <= decimalFrom s n.
Proof.
  induction s as [|c s IH]; intros n Hd Hn; simpl; [lia|].
  simpl in Hd. apply andb_prop in Hd. destruct Hd as [Hc Hs].
  apply andb_prop in Hc. destruct Hc as [H1 H2].
  apply Z.leb_le in H1, H2.
  specialize (IH (n * 10 + (Z.of_nat (nat_of_ascii c) - 48)) Hs). lia.
Qed.

(** [ParseUint] on a run of digits whose value is a [uint64]. *)
Lemma parseUintLoop_decimal (s : string) :
  forall n,
    allDigits s = true -> 0 <= n -> decimalFrom s n <= strconv.maxUint64 ->
    strconv.parseUintLoop s n = (decimalFrom s n, None).
Proof.
  induction s as [|c s IH]; intros n Hd Hn Hmax; [reflexivity|].
  simpl in Hd. apply andb_prop in Hd. destruct Hd as [Hc Hs].
  pose proof Hc as Hc'. apply andb_prop in Hc'. destruct Hc' as [H1 H2].
  apply Z.leb_le in H1, H2.
  simpl decimalFrom in *.
  set (d := Z.of_nat (nat_of_ascii c) - 48) in *.
  assert (Hge : n * 10 + d <= decimalFrom s (n * 10 + d))
    by (apply decimalFrom_ge; [assumption | lia]).
  unfold strconv.maxUint64 in Hmax.
  cbn [strconv.parseUintLoop]. unfold strconv.digit. rewrite Hc.
  fold d.
  change (strconv.maxUint64 / 10 + 1) with 1844674407370955162.
  change (2 ^ strconv.IntSize - 1) with 18446744073709551615.
  change (2 ^ 64) with 18446744073709551616 in *.
  destruct (Z.leb_spec 1844674407370955162 n) as [Hcut|Hcut]; [lia|].
  rewrite Z.mod_small by lia.
  destruct (Z.ltb_spec (n * 10 + d) (n * 10)) as [Hw|Hw]; [lia|].
  destruct (Z.ltb_spec 18446744073709551615 (n * 10 + d)) as [Hm|Hm]; [lia|].
  simpl orb. cbv iota. apply IH; [assumption | lia |].
  unfold strconv.maxUint64. change (2 ^ 64) with 18446744073709551616. lia.
Qed.

Lemma ParseUint_decimal (s : string) :
  isDecimal s = true ->
  decimalValue s <= strconv.maxUint64 ->
  strconv.ParseUint s = (decimalValue s, None).
Proof.
  intros Hd Hmax. destruct s as [|c s]; [discriminate|].
  unfold strconv.ParseUint, decimalValue.
  apply parseUintLoop_decimal; [exact Hd | lia | exact Hmax].
Qed.

Lemma Split_token (a : string) :
  noSpace a = true -> strings.Split a " " = [a].
Proof.
  induction a as [|c a IH]; intros H; [reflexivity|].
  simpl in H. apply andb_prop in H. destruct H as [Hc Ha].
  simpl. apply negb_true_iff in Hc. rewrite Hc, (IH Ha). reflexivity.
Qed.

Lemma Split_first (a rest : string) :
  noSpace a = true ->
  strings.Split (a ++ String " " rest) " " = a :: strings.Split rest " ".
Proof.
  induction a as [|c a IH]; intros H; [reflexivity|].
  simpl in H. apply andb_prop in H. destruct H as [Hc Ha].
  simpl. apply negb_true_iff in Hc. rewrite Hc, (IH Ha). reflexivity.
Qed.

Lemma Split_eventLine (code repeat button remote : string) :
  noSpace code = true -> noSpace repeat = true ->
  noSpace button = true -> noSpace remote = true ->
  strings.Split (eventLine code repeat button remote) " " =
  [code; repeat; button; remote].
Proof.
  intros H1 H2 H3 H4. unfold eventLine.
  change (code ++ " " ++ repeat ++ " " ++ button ++ " " ++ remote)%string
    with (code ++ String " " (repeat ++ String " " (button ++ String " " remote)))%string.
  rewrite !Split_first, Split_token by assumption. reflexivity.
Qed.

Lemma noSpace_with_space (a rest : string) :
  noSpace (a ++ String " " rest) = false.
Proof.
  induction a as [|c a IH]; simpl; [reflexivity|].
  rewrite IH. apply andb_false_r.
Qed.

Lemma eventLine_not_BEGIN (code repeat button remote : string) :
  (eventLine code repeat button remote =? "BEGIN")%string = false.
Proof.
  apply String.eqb_neq. intros H.
  assert (Hn : noSpace (eventLine code repeat button remote) = true)
    by (rewrite H; reflexivity).
  unfold eventLine in Hn.
  change (code ++ " " ++ repeat ++ " " ++ button ++ " " ++ remote)%string
    with (code ++ String " " (repeat ++ " " ++ button ++ " " ++ remote))%string in Hn.
  rewrite noSpace_with_space in Hn. discriminate.
Qed.

(** C7, as the claim states it, fails: a repeat count can be a non-negative
    decimal and not fit the unsigned integer that [ParseUint] parses into.
    The line below is four tokens, its code decodes to 8 bytes, its repeat
    count is 2^64 in decimal; the reader logs an error and sends no event. *)
Lemma repeat_count_overflows :
  noSpace "000000000000002a" = true /\
  noSpace "18446744073709551616" = true /\
  noSpace "KEY_POWER" = true /\ noSpace "Television" = true /\
  hex.DecodeString (pad16 "000000000000002a") = ([0; 0; 0; 0; 0; 0; 0; 42], None) /\
  isDecimal "18446744073709551616" = true /\
  decimalValue "18446744073709551616" = 2 ^ 64 /\
  read Sent newLircReader
       (eventLine "000000000000002a" "18446744073709551616" "KEY_POWER" "Television") =
  Ok (newLircReader,
      [LogError "lirc repeat count not parseable as decimal (invalid repeat count)"
         [StrAttr "repeat" "18446744073709551616"]]).
Proof. repeat split; reflexivity. Qed.

(** C7 (amended).  For an event line of four tokens without spaces, whose
    code, padded to 16 digits, decodes to 8 bytes [c], and whose repeat
    count is a run of decimal digits of value at most 2^64 - 1, the reader
    in [stateReceive] stays there and sends the event whose button and
    remote names are the third and fourth tokens, whose repeat count is
    the decimal value of the second, and whose code is the little-endian
    16-bit value of the first two bytes of [c]. *)
Theorem event_round_trip (r : lircReader) (code repeat button remote : string)
    (c : list Z) :
  state r = stateReceive ->
  noSpace code = true -> noSpace repeat = true ->
  noSpace button = true -> noSpace remote = true ->
  hex.DecodeString (pad16 code) = (c, None) ->
  slen c = 8 ->
  isDecimal repeat = true ->
  decimalValue repeat <= 2 ^ 64 - 1 ->
  read Sent r (eventLine code repeat button remote) =
  Ok (r, [SendEvent {| Code := littleEndian16 c;
                       RepeatCount := decimalValue repeat;
                       ButtonName := button;
                       RemoteControlName := remote |}]).
Proof.
  intros Hst H1 H2 H3 H4 Hdec Hlen Hrep Hmax.
  unfold read. rewrite Hst, eventLine_not_BEGIN.
  rewrite (Split_eventLine code repeat button remote H1 H2 H3 H4).
  unfold index at 1. cbn [nth_error bind].
  rewrite Hdec, Hlen. cbn [Z.eqb Pos.eqb negb].
  unfold index at 1. cbn [nth_error bind].
  rewrite (ParseUint_decimal repeat Hrep Hmax).
  rewrite (Uint16_decoded _ _ _ Hdec Hlen).
  reflexivity.
Qed.

(** The event line of scenario C. *)
Lemma event_round_trip_witness :
  read Sent newLircReader "000000000000002a 0 KEY_POWER Television" =
  Ok (newLircReader,
      [SendEvent {| Code := 0; RepeatCount := 0;
                    ButtonName := "KEY_POWER";
                    RemoteControlName := "Television" |}]).
Proof.
  apply (event_round_trip newLircReader "000000000000002a" "0" "KEY_POWER" "Television"
           [0; 0; 0; 0; 0; 0; 0; 42]); try reflexivity.
  vm_compute. discriminate.
Defined.

(** * More of the reader *)

(** Case analysis of a call of [read] that returned. *)
Ltac read_cases H :=
  unfold read, bind, stateError, flushReply in H;
  repeat match type of H with
         | context [match ?x with _ => _ end] =>
             let E := fresh "E" in destruct x eqn:E
         end;
  try discriminate H;
  apply (f_equal (fun m => match m with Ok p => Some p | Panic _ => None end)) in H;
  apply (f_equal (fun o => match o with Some p => p | None => (newLircReader, []) end)) in H;
  apply pair_equal_spec in H; destruct H as [? ?]; subst.

(** X1.  A call of [read] that returns has logged or sent at most one
    thing; when it is an error record, the reader is back in
    [stateReceive]. *)
Theorem read_one_effect (sel : selected) (r r' : lircReader) (line : string)
    (out : list effect) :
  read sel r line = Ok (r', out) ->
  (List.length out <= 1)%nat /\
  (forall err attrs, In (LogError err attrs) out ->
                     out = [LogError err attrs] /\ state r' = stateReceive).
Proof.
  intros H. read_cases H; simpl; (split; [lia|]);
    intros err attrs Hin; simpl in Hin;
    repeat match goal with
           | H : _ \/ _ |- _ => destruct H
           | H : False |- _ => destruct H
           end;
    try discriminate;
    match goal with
    | H : LogError _ _ = LogError _ _ |- _ => inversion H; subst; split; reflexivity
    end.
Qed.

Ltac end_line :=
  repeat match goal with
         | E : negb _ = false |- _ => apply negb_false_iff in E
         | E : (_ =? _)%string = true |- _ => apply String.eqb_eq in E
         end.

Ltac in_cases Hin :=
  simpl in Hin;
  repeat match goal with
         | H : _ \/ _ |- _ => destruct H
         | H : False |- _ => destruct H
         end;
  try discriminate.

(** X2.  A reply goes out only on a line END read inside a transaction, by
    the send case of the select; it is the reply the reader has
    assembled, and the reader is then in [stateReceive]. *)
Theorem reply_sent_only_on_END (sel : selected) (r r' : lircReader) (line : string)
    (out : list effect) (rp : CommandReply) :
  read sel r line = Ok (r', out) ->
  In (SendReply rp) out ->
  line = "END" /\ sel = Sent /\ rp = reply r /\
  state r' = stateReceive /\ completes r line = true.
Proof.
  intros H Hin. unfold completes.
  read_cases H; in_cases Hin; end_line; subst;
    match goal with
    | H : SendReply _ = SendReply _ |- _ => inversion H; subst
    end;
    repeat split; reflexivity.
Qed.

(** X3.  An event goes out only from [stateReceive], by the send case of
    the select, and leaves the reader as it was. *)
Theorem event_sent_only_in_receive (sel : selected) (r r' : lircReader)
    (line : string) (out : list effect) (ev : ButtonPress) :
  read sel r line = Ok (r', out) ->
  In (SendEvent ev) out ->
  state r = stateReceive /\ sel = Sent /\ r' = r /\ out = [SendEvent ev].
Proof.
  intros H Hin.
  read_cases H; in_cases Hin;
    match goal with
    | H : SendEvent _ = SendEvent _ |- _ => inversion H; subst
    end; repeat split; reflexivity.
Qed.

(** X4.  When the select of a call takes the case of the done context, the
    call sends nothing: all it can leave behind is an error record. *)
Theorem cancelled_read_sends_nothing (r r' : lircReader) (line : string)
    (out : list effect) :
  read CtxDone r line = Ok (r', out) ->
  forall e, In e out -> isLog e = true.
Proof.
  intros H e Hin.
  read_cases H; in_cases Hin; subst; reflexivity.
Qed.

Ltac returns := unfold stateError; do 2 eexists; reflexivity.

(** X5.  In [stateReceive] a line of four fields or more never makes
    [read] panic, whatever the fields are. *)
Theorem four_fields_never_panic (sel : selected) (r : lircReader) (line : string) :
  state r = stateReceive ->
  (4 <= List.length (strings.Split line " "))%nat ->
  exists r' out, read sel r line = Ok (r', out).
Proof.
  intros Hst Hlen. unfold read. rewrite Hst.
  destruct (line =? "BEGIN")%string; [returns|].
  destruct (strings.Split line " ") as [|w0 [|w1 [|w2 [|w3 rest]]]];
    simpl in Hlen; try lia.
  unfold index at 1. cbn [nth_error bind].
  destruct (hex.DecodeString (pad16 w0)) as [c [e|]]; [returns|].
  destruct (slen c =? 8) eqn:Hc; cbn [negb]; [|returns].
  apply Z.eqb_eq in Hc.
  unfold index at 1. cbn [nth_error bind].
  destruct (strconv.ParseUint w1) as [v [e|]]; [returns|].
  destruct c as [|b0 [|b1 c]]; try (unfold slen in Hc; simpl in Hc; lia).
  unfold binary.Uint16, index. cbn [nth_error bind].
  destruct sel; returns.
Qed.

Lemma four_fields_never_panic_witness :
  exists r' out, read Sent newLircReader "zz 1 2 3 4" = Ok (r', out).
Proof.
  apply (four_fields_never_panic Sent newLircReader "zz 1 2 3 4" eq_refl).
  simpl. lia.
Defined.

(** X6.  From [stateReceive], whatever the reader holds from before, a
    transaction without data delivers one reply, made of its header line,
    of its status when it has one, and of no data, and the reader is back
    in [stateReceive]. *)
Theorem no_data_transaction (r : lircReader) (header : string) (ok : bool) :
  state r = stateReceive ->
  feed r (sent ["BEGIN"; header; statusLine ok; "END"]) =
    Ok (mkReader stateReceive (mkReply header ok []) 0 0,
        [SendReply (mkReply header ok [])]) /\
  feed r (sent ["BEGIN"; header; "END"]) =
    Ok (mkReader stateReceive (mkReply header true []) 0 0,
        [SendReply (mkReply header true [])]).
Proof.
  intros Hst. destruct r as [st rp dc dl]. simpl in Hst. subst st.
  destruct ok; split; reflexivity.
Qed.

Lemma no_data_transaction_witness :
  feed (mkReader stateReceive (mkReply "VERSION" true ["0.10.2"; "END"]) 2 1)
       (sent ["BEGIN"; "SEND_ONCE"; "ERROR"; "END"]) =
  Ok (mkReader stateReceive (mkReply "SEND_ONCE" false []) 0 0,
      [SendReply (mkReply "SEND_ONCE" false [])]).
Proof.
  apply (proj1 (no_data_transaction
                  (mkReader stateReceive (mkReply "VERSION" true ["0.10.2"; "END"]) 2 1)
                  "SEND_ONCE" false eq_refl)).
Defined.

Lemma feed_app (l1 l2 : list (string * selected)) :
  forall r,
    feed r (l1 ++ l2) =
    (p <- feed r l1 ;; q <- feed (fst p) l2 ;; Ok (fst q, (snd p ++ snd q)%list)).
Proof.
  induction l1 as [|[line sel] l1 IH]; intros r; simpl.
  - destruct (feed r l2) as [[r2 o2]|]; reflexivity.
  - destruct (read sel r line) as [[r1 o1]|]; simpl; [|reflexivity].
    rewrite IH. destruct (feed r1 l1) as [[r2 o2]|]; simpl; [|reflexivity].
    destruct (feed r2 l2) as [[r3 o3]|]; simpl; [|reflexivity].
    rewrite app_assoc. reflexivity.
Qed.

(** X7.  Once the length line is read, the reader being in [stateData]
    with a declared length [n] and [k] lines counted, the reply goes out
    after [n - k + 1] more lines and then END: every one of those lines
    is stored, the one past the declared length too. *)
Theorem data_transaction (r : lircReader) (k n : Z) (ls : list string) :
  state r = stateData ->
  dataCount r = k ->
  dataLength r = n ->
  0 <= k <= n ->
  slen ls = n - k + 1 ->
  feed r (sent (ls ++ ["END"])) =
  Ok (mkReader stateReceive
        (mkReply (Reply.Command (reply r)) (Reply.Success (reply r))
                 (Reply.Data (reply r) ++ ls)%list) (n + 1) n,
      [SendReply (mkReply (Reply.Command (reply r)) (Reply.Success (reply r))
                          (Reply.Data (reply r) ++ ls)%list)]).
Proof.
  intros Hst Hk Hn Hkn Hlen.
  destruct r as [st rp dc dl]. simpl in Hst, Hk, Hn. subst st dc dl.
  unfold sent. rewrite map_app, feed_app.
  pose proof (collect_one_more ls rp k n Hkn Hlen) as Hc.
  unfold sent, mkReader in Hc. rewrite Hc.
  reflexivity.
Qed.

Lemma data_transaction_witness :
  feed (mkReader stateData (mkReply "LIST" true []) 0 2)
       (sent (["tv"; "amp"; "radio"] ++ ["END"])) =
  Ok (mkReader stateReceive (mkReply "LIST" true ["tv"; "amp"; "radio"]) 3 2,
      [SendReply (mkReply "LIST" true ["tv"; "amp"; "radio"])]).
Proof.
  apply (data_transaction (mkReader stateData (mkReply "LIST" true []) 0 2) 0 2
           ["tv"; "amp"; "radio"]); try reflexivity; lia.
Defined.

(** What [read] does with a line in [stateReceive], told by its fields. *)
Lemma read_event_fields (r : lircReader) (line w0 w1 w2 w3 : string)
    (rest : list string) (c : list Z) (v : Z) :
  state r = stateReceive ->
  (line =? "BEGIN")%string = false ->
  strings.Split line " " = w0 :: w1 :: w2 :: w3 :: rest ->
  hex.DecodeString (pad16 w0) = (c, None) ->
  slen c = 8 ->
  strconv.ParseUint w1 = (v, None) ->
  read Sent r line =
  Ok (r, [SendEvent {| Code := littleEndian16 c; RepeatCount := v;
                       ButtonName := w2; RemoteControlName := w3 |}]).
Proof.
  intros Hst Hb Hs Hdec Hlen Hv.
  unfold read. rewrite Hst, Hb, Hs.
  unfold index at 1. cbn [nth_error bind].
  rewrite Hdec, Hlen. cbn [Z.eqb Pos.eqb negb].
  unfold index at 1. cbn [nth_error bind].
  rewrite Hv, (Uint16_decoded _ _ _ Hdec Hlen).
  reflexivity.
Qed.

Lemma spaced_not_BEGIN (a rest : string) :
  ((a ++ String " " rest) =? "BEGIN")%string = false.
Proof.
  apply String.eqb_neq. intros H.
  assert (Hn : noSpace (a ++ String " " rest) = true) by (rewrite H; reflexivity).
  rewrite noSpace_with_space in Hn. discriminate.
Qed.

(** X8.  Fields after the fourth are ignored: an event line followed by a
    space and anything else gives the event of its first four tokens. *)
Theorem extra_fields_ignored (r : lircReader)
    (code repeat button remote extra : string) (c : list Z) :
  state r = stateReceive ->
  noSpace code = true -> noSpace repeat = true ->
  noSpace button = true -> noSpace remote = true ->
  hex.DecodeString (pad16 code) = (c, None) ->
  slen c = 8 ->
  isDecimal repeat = true ->
  decimalValue repeat <= 2 ^ 64 - 1 ->
  read Sent r (code ++ " " ++ repeat ++ " " ++ button ++ " " ++ remote ++ " " ++ extra) =
  Ok (r, [SendEvent {| Code := littleEndian16 c;
                       RepeatCount := decimalValue repeat;
                       ButtonName := button;
                       RemoteControlName := remote |}]).
Proof.
  intros Hst H1 H2 H3 H4 Hdec Hlen Hrep Hmax.
  change (code ++ " " ++ repeat ++ " " ++ button ++ " " ++ remote ++ " " ++ extra)%string
    with (code ++ String " " (repeat ++ String " " (button ++ String " "
            (remote ++ String " " extra))))%string.
  apply (read_event_fields r _ code repeat button remote (strings.Split extra " ") c);
    try assumption.
  - apply spaced_not_BEGIN.
  - rewrite !Split_first by assumption. reflexivity.
  - apply ParseUint_decimal; assumption.
Qed.

Lemma extra_fields_ignored_witness :
  read Sent newLircReader "000000000000002a 0 KEY_POWER Living Room TV" =
  Ok (newLircReader,
      [SendEvent {| Code := 0; RepeatCount := 0;
                    ButtonName := "KEY_POWER"; RemoteControlName := "Living" |}]).
Proof.
  apply (extra_fields_ignored newLircReader "000000000000002a" "0" "KEY_POWER" "Living"
           "Room TV" [0; 0; 0; 0; 0; 0; 0; 42]); try reflexivity.
  vm_compute. discriminate.
Defined.

(** A decoding without error yields one byte for two digits. *)
Lemma Decode_length_aux (s : string) :
  (forall c, hex.Decode s = (c, None) -> len s = 2 * slen c) /\
  (forall q c, hex.Decode (String q s) = (c, None) -> len (String q s) = 2 * slen c).
Proof.
  induction s as [|p s [IH1 IH2]].
  - split.
    + intros c H. inversion H. reflexivity.
    + intros q c H. simpl in H. destruct (hex.fromHexChar q); discriminate.
  - split; [exact (IH2 p)|].
    intros q c H. rewrite Decode_pair in H.
    destruct (hex.fromHexChar q); [|discriminate].
    destruct (hex.fromHexChar p); [|discriminate].
    destruct (hex.Decode s) as [bs e] eqn:Es.
    apply pair_equal_spec in H. destruct H as [Hc He]. subst c e.
    specialize (IH1 bs eq_refl).
    unfold len, slen in *. simpl String.length. simpl List.length. lia.
Qed.

Lemma Decode_length (s : string) (c : list Z) :
  hex.DecodeString s = (c, None) -> len s = 2 * slen c.
Proof. apply (proj1 (Decode_length_aux s)). Qed.

Lemma pad16_short (code : string) :
  len code <= 12 ->
  exists s, pad16 code = String "0" (String "0" (String "0" (String "0" s))).
Proof.
  intros H. unfold pad16.
  destruct (Z.ltb_spec (len code) 16) as [_|Hge]; [|lia].
  assert (Hlen : 0 <= len code) by (unfold len; lia).
  replace (Z.to_nat (16 - len code)) with (4 + Z.to_nat (12 - len code))%nat by lia.
  simpl. eexists. reflexivity.
Qed.

Lemma Decode_zeros (s : string) (c : list Z) (err : option hex.error) :
  hex.DecodeString (String "0" (String "0" (String "0" (String "0" s)))) = (c, err) ->
  littleEndian16 c = 0.
Proof.
  unfold hex.DecodeString. rewrite Decode_pair.
  change (hex.fromHexChar "0") with (Some 0). cbv beta iota.
  rewrite Decode_pair. change (hex.fromHexChar "0") with (Some 0). cbv beta iota.
  destruct (hex.Decode s) as [bs e]. intros H.
  apply pair_equal_spec in H. destruct H as [H _]. subst c. reflexivity.
Qed.

(** X9.  The event of a line whose code has at most 12 digits has [Code]
    0: the code is padded on the left, and [Code] is read off the first
    two bytes. *)
Theorem short_code_is_zero (r : lircReader) (code repeat button remote : string)
    (c : list Z) :
  state r = stateReceive ->
  noSpace code = true -> noSpace repeat = true ->
  noSpace button = true -> noSpace remote = true ->
  len code <= 12 ->
  hex.DecodeString (pad16 code) = (c, None) ->
  isDecimal repeat = true ->
  decimalValue repeat <= 2 ^ 64 - 1 ->
  read Sent r (eventLine code repeat button remote) =
  Ok (r, [SendEvent {| Code := 0;
                       RepeatCount := decimalValue repeat;
                       ButtonName := button;
                       RemoteControlName := remote |}]).
Proof.
  intros Hst H1 H2 H3 H4 Hshort Hdec Hrep Hmax.
  destruct (pad16_short code Hshort) as [s Hpad].
  assert (Hzero : littleEndian16 c = 0)
    by (rewrite Hpad in Hdec; apply (Decode_zeros s c None Hdec)).
  assert (Hlen : slen c = 8).
  { assert (Hl : len (pad16 code) = 16).
    { unfold pad16. destruct (Z.ltb_spec (len code) 16) as [_|Hge]; [|lia].
      clear - Hshort. unfold len in *.
      assert (Hr : forall n, String.length (strings.Repeat "0" n) = n)
        by (induction n; simpl; congruence).
      assert (Ha : forall a b, String.length (a ++ b) = (String.length a + String.length b)%nat)
        by (induction a; simpl; intros; [|rewrite IHa]; reflexivity).
      rewrite Ha, Hr. lia. }
    pose proof (Decode_length _ _ Hdec) as Hd. lia. }
  rewrite <- Hzero.
  apply (read_event_fields r _ code repeat button remote [] c); try assumption.
  - apply eventLine_not_BEGIN.
  - apply Split_eventLine; assumption.
  - apply ParseUint_decimal; assumption.
Qed.

Lemma short_code_is_zero_witness :
  read Sent newLircReader "37ff07bfe 1 KEY_UP Television" =
  Ok (newLircReader,
      [SendEvent {| Code := 0; RepeatCount := 1;
                    ButtonName := "KEY_UP"; RemoteControlName := "Television" |}]).
Proof.
  apply (short_code_is_zero newLircReader "37ff07bfe" "1" "KEY_UP" "Television"
           [0; 0; 0; 3; 127; 240; 123; 254]); try reflexivity;
    vm_compute; discriminate.
Defined.

(** X10.  In [stateReceive] a line whose first field is longer than 16
    bytes gives no event: it is logged as an error, either of its
    digits or of its length. *)
Theorem long_code_rejected (sel : selected) (r : lircReader) (line w0 : string)
    (rest : list string) :
  state r = stateReceive ->
  (line =? "BEGIN")%string = false ->
  strings.Split line " " = w0 :: rest ->
  16 < len w0 ->
  exists err attrs, read sel r line = Ok (r, [LogError err attrs]).
Proof.
  intros Hst Hb Hs Hlong.
  destruct r as [st rp dc dl]. simpl in Hst. subst st.
  unfold read. cbn [state]. rewrite Hb, Hs.
  unfold index at 1. cbn [nth_error bind].
  assert (Hpad : pad16 w0 = w0).
  { unfold pad16. destruct (Z.ltb_spec (len w0) 16); [lia | reflexivity]. }
  rewrite Hpad.
  destruct (hex.DecodeString w0) as [c [e|]] eqn:Hd.
  - do 2 eexists. reflexivity.
  - apply Decode_length in Hd.
    destruct (Z.eqb_spec (slen c) 8) as [Hc|Hc]; [lia|].
    cbn [negb]. do 2 eexists. reflexivity.
Qed.

Lemma long_code_rejected_witness :
  exists err attrs,
    read Sent newLircReader "00000000000000002a 0 KEY_POWER Television" =
    Ok (newLircReader, [LogError err attrs]).
Proof.
  apply (long_code_rejected Sent newLircReader _ "00000000000000002a"
           ["0"; "KEY_POWER"; "Television"]); try reflexivity.
Defined.

(** A call that logs an error leaves the reader in [stateReceive]. *)
Lemma error_resets (sel : selected) (r r' : lircReader) (line err : string)
    (attrs : list attr) (out : list effect) :
  read sel r line = Ok (r', out) ->
  In (LogError err attrs) out ->
  state r' = stateReceive.
Proof.
  intros H Hin. read_cases H; in_cases Hin; reflexivity.
Qed.

(** X11.  The reader recovers: after a line that was logged as an error,
    in whatever state it came, the next well-formed event line gives its
    event. *)
Theorem recovers_after_error (sel : selected) (r r1 : lircReader)
    (bad err : string) (attrs : list attr)
    (code repeat button remote : string) (c : list Z) :
  read sel r bad = Ok (r1, [LogError err attrs]) ->
  noSpace code = true -> noSpace repeat = true ->
  noSpace button = true -> noSpace remote = true ->
  hex.DecodeString (pad16 code) = (c, None) ->
  slen c = 8 ->
  isDecimal repeat = true ->
  decimalValue repeat <= 2 ^ 64 - 1 ->
  feed r [(bad, sel); (eventLine code repeat button remote, Sent)] =
  Ok (r1, [LogError err attrs;
           SendEvent {| Code := littleEndian16 c;
                        RepeatCount := decimalValue repeat;
                        ButtonName := button;
                        RemoteControlName := remote |}]).
Proof.
  intros Hbad H1 H2 H3 H4 Hdec Hlen Hrep Hmax.
  assert (Hst : state r1 = stateReceive)
    by (apply (error_resets sel r r1 bad err attrs _ Hbad); left; reflexivity).
  cbn [feed]. rewrite Hbad. cbn [bind fst snd].
  rewrite (read_event_fields r1 _ code repeat button remote [] c (decimalValue repeat));
    try assumption.
  - reflexivity.
  - apply eventLine_not_BEGIN.
  - apply Split_eventLine; assumption.
  - apply ParseUint_decimal; assumption.
Qed.

Lemma recovers_after_error_witness :
  feed (mkReader stateStatus (mkReply "VERSION" true []) 0 0)
       [("OOPS", Sent); ("000000000000002a 0 KEY_POWER Television", Sent)] =
  Ok (mkReader stateReceive (mkReply "VERSION" true []) 0 0,
      [LogError "lirc reply message received has invalid status" [StrAttr "line" "OOPS"];
       SendEvent {| Code := 0; RepeatCount := 0;
                    ButtonName := "KEY_POWER"; RemoteControlName := "Television" |}]).
Proof.
  apply (recovers_after_error Sent (mkReader stateStatus (mkReply "VERSION" true []) 0 0)
           _ "OOPS" _ _ "000000000000002a" "0" "KEY_POWER" "Television"
           [0; 0; 0; 0; 0; 0; 0; 42]); try reflexivity.
  vm_compute. discriminate.
Defined.

Lemma read_one_effect_witness :
  (List.length [LogError "lirc reply message received has invalid status"
                  [StrAttr "line" "OOPS"]] <= 1)%nat /\
  (forall err attrs,
      In (LogError err attrs)
         [LogError "lirc reply message received has invalid status" [StrAttr "line" "OOPS"]] ->
      [LogError "lirc reply message received has invalid status" [StrAttr "line" "OOPS"]] =
        [LogError err attrs] /\
      state (mkReader stateReceive (mkReply "VERSION" true []) 0 0) = stateReceive).
Proof.
  apply (read_one_effect Sent (mkReader stateStatus (mkReply "VERSION" true []) 0 0)
           (mkReader stateReceive (mkReply "VERSION" true []) 0 0) "OOPS" _ eq_refl).
Defined.

Lemma reply_sent_only_on_END_witness :
  "END" = "END" /\ Sent = Sent /\
  mkReply "VERSION" true [] = reply (mkReader stateStatus (mkReply "VERSION" true []) 0 0) /\
  state (mkReader stateReceive (mkReply "VERSION" true []) 0 0) = stateReceive /\
  completes (mkReader stateStatus (mkReply "VERSION" true []) 0 0) "END" = true.
Proof.
  apply (reply_sent_only_on_END Sent
           (mkReader stateStatus (mkReply "VERSION" true []) 0 0)
           (mkReader stateReceive (mkReply "VERSION" true []) 0 0) "END"
           [SendReply (mkReply "VERSION" true [])] (mkReply "VERSION" true [])
           eq_refl).
  left. reflexivity.
Defined.

Lemma event_sent_only_in_receive_witness :
  state newLircReader = stateReceive /\ Sent = Sent /\ newLircReader = newLircReader /\
  [SendEvent {| Code := 0; RepeatCount := 0; ButtonName := "KEY_POWER";
                RemoteControlName := "Television" |}] =
  [SendEvent {| Code := 0; RepeatCount := 0; ButtonName := "KEY_POWER";
                RemoteControlName := "Television" |}].
Proof.
  apply (event_sent_only_in_receive Sent newLircReader newLircReader
           "000000000000002a 0 KEY_POWER Television" _ _ eq_refl).
  left. reflexivity.
Defined.

Lemma cancelled_read_sends_nothing_witness :
  isLog (LogError "lirc reply message received has invalid data start"
           [StrAttr "line" "OOPS"]) = true.
Proof.
  apply (cancelled_read_sends_nothing
           (mkReader stateDataStart (mkReply "VERSION" true []) 0 0)
           (mkReader stateReceive (mkReply "VERSION" true []) 0 0) "OOPS" _ eq_refl).
  left. reflexivity.
Defined.

(** * More of the dispatch loop *)

Lemma run_Returned (evs : list loopEvent) (s : loopState) (acts : list action) :
  run Returned evs = Some (s, acts) -> evs = [] /\ s = Returned /\ acts = [].
Proof.
  destruct evs as [|e evs]; simpl; intros H.
  - inversion H. auto.
  - destruct e; discriminate.
Qed.

Lemma delivered_app (a b : list action) :
  delivered (a ++ b) = (delivered a ++ delivered b)%list.
Proof. apply flat_map_app. Qed.

Lemma written_app (a b : list action) :
  written (a ++ b) = (written a ++ written b)%list.
Proof. apply flat_map_app. Qed.

Lemma replies_in_order_from (evs : list loopEvent) :
  forall s0 s acts,
    run s0 evs = Some (s, acts) ->
    (forall ch rp, s0 = Routing ch rp -> notReload rp = true) ->
    exists dropped,
      (inHand s0 ++ filter notReload (received evs))%list = (delivered acts ++ dropped)%list /\
      (s <> Returned -> dropped = inHand s) /\
      (List.length dropped <= 1)%nat.
Proof.
  induction evs as [|e evs IH]; intros s0 s acts Hrun Hhand.
  - simpl in Hrun. inversion Hrun; subst. exists (inHand s).
    simpl. rewrite app_nil_r. split; [reflexivity|]. split; [reflexivity|].
    destruct s; simpl; lia.
  - simpl in Hrun.
    destruct (step s0 e) as [[s1 a1]|] eqn:E1; [|discriminate].
    destruct (run s1 evs) as [[s2 a2]|] eqn:E2; [|discriminate].
    inversion Hrun; subst s2 acts. clear Hrun.
    destruct s0 as [[|] | ch rp |]; destruct e as [| cmd werr | reply |];
      simpl in E1; try discriminate.
    + inversion E1; subst. apply run_Returned in E2. destruct E2 as [-> [-> ->]].
      exists []. simpl. repeat split; try reflexivity; lia.
    + destruct werr; inversion E1; subst.
      * apply run_Returned in E2. destruct E2 as [-> [-> ->]].
        exists []. simpl. repeat split; try reflexivity; lia.
      * destruct (IH _ _ _ E2) as [d [H1 [H2 H3]]]; [discriminate|].
        exists d. simpl in *. auto.
    + unfold received; simpl. fold (received evs). unfold notReload at 1.
      destruct (Reply.Command reply =? "SIGHUP")%string eqn:Es; inversion E1; subst; simpl.
      * destruct (IH _ _ _ E2) as [d [H1 [H2 H3]]]; [discriminate|].
        exists d. simpl in *. auto.
      * destruct (IH _ _ _ E2) as [d [H1 [H2 H3]]].
        { intros ch rp Heq. inversion Heq; subst. unfold notReload. rewrite Es. reflexivity. }
        exists d. simpl in *. auto.
    + inversion E1; subst. apply run_Returned in E2. destruct E2 as [-> [-> ->]].
      exists []. simpl. repeat split; try reflexivity; lia.
    + unfold received; simpl. fold (received evs). unfold notReload at 1.
      destruct (Reply.Command reply =? "SIGHUP")%string eqn:Es; inversion E1; subst; simpl.
      * destruct (IH _ _ _ E2) as [d [H1 [H2 H3]]]; [discriminate|].
        exists d. simpl in *. auto.
      * destruct (IH _ _ _ E2) as [d [H1 [H2 H3]]].
        { intros ch rp Heq. inversion Heq; subst. unfold notReload. rewrite Es. reflexivity. }
        exists d. simpl in *. auto.
    + inversion E1; subst. apply run_Returned in E2. destruct E2 as [-> [-> ->]].
      exists [rp]. simpl. repeat split; try reflexivity. intros H; contradiction.
    + inversion E1; subst.
      destruct (IH _ _ _ E2) as [d [H1 [H2 H3]]]; [discriminate|].
      exists d. simpl in *. rewrite H1. auto.
Qed.

(** X12.  The loop delivers the replies it receives in the order in which
    it receives them, each once, the reload notifications left out;
    what is not yet delivered is the reply it holds at its inner select,
    or, when it has returned, at most the one it held as the context
    ended. *)
Theorem replies_in_order (evs : list loopEvent) (s : loopState) (acts : list action) :
  run loopStart evs = Some (s, acts) ->
  exists dropped,
    filter notReload (received evs) = (delivered acts ++ dropped)%list /\
    (s <> Returned -> dropped = inHand s) /\
    (List.length dropped <= 1)%nat.
Proof.
  intros H.
  destruct (replies_in_order_from evs loopStart s acts H) as [d Hd].
  - intros ch rp Heq. discriminate Heq.
  - exists d. exact Hd.
Qed.

Lemma replies_in_order_witness :
  exists dropped,
    filter notReload (received exampleEvents) = (delivered exampleTrace ++ dropped)%list /\
    (Selecting nil <> Returned -> dropped = inHand (Selecting nil)) /\
    (List.length dropped <= 1)%nat.
Proof.
  apply (replies_in_order exampleEvents (Selecting nil) exampleTrace eq_refl).
Defined.

Lemma writes_bounded_from (evs : list loopEvent) :
  forall s0 s acts b,
    run s0 evs = Some (s, acts) ->
    slot b s0 ->
    (List.length (written acts) + flag b <= List.length (delivered acts) + 1)%nat.
Proof.
  induction evs as [|e evs IH]; intros s0 s acts b Hrun Hs.
  - simpl in Hrun. inversion Hrun; subst. destruct b; simpl; lia.
  - simpl in Hrun.
    destruct (step s0 e) as [[s1 a1]|] eqn:E1; [|discriminate].
    destruct (run s1 evs) as [[s2 a2]|] eqn:E2; [|discriminate].
    inversion Hrun; subst s2 acts. clear Hrun.
    destruct (step_slot _ _ _ _ _ E1 Hs) as [_ S1].
    specialize (IH _ _ _ _ E2 S1).
    rewrite written_app, delivered_app, !length_app.
    destruct s0 as [[|] | ch rp |]; destruct e as [| cmd werr | reply |];
      simpl in E1; try discriminate;
      repeat match type of E1 with
             | context [match ?x with _ => _ end] => destruct x
             | context [if ?x then _ else _] => destruct x
             end;
      inversion E1; subst; simpl in *;
      try (destruct b; simpl in *; lia).
    destruct b; simpl in *; [|lia].
    destruct Hs as [_ Hs]. specialize (Hs eq_refl). discriminate.
Qed.

(** X13.  At every point of a run the loop has written at most one line
    more than it has delivered replies. *)
Theorem writes_bounded (evs : list loopEvent) (s : loopState) (acts : list action) :
  run loopStart evs = Some (s, acts) ->
  (List.length (written acts) <= List.length (delivered acts) + 1)%nat.
Proof.
  intros H.
  assert (Hs : slot false loopStart) by (simpl; split; discriminate).
  pose proof (writes_bounded_from evs _ _ _ false H Hs) as Hb.
  simpl in Hb. lia.
Qed.

Lemma writes_bounded_witness :
  (List.length (written exampleTrace) <= List.length (delivered exampleTrace) + 1)%nat.
Proof.
  apply (writes_bounded exampleEvents (Selecting nil) exampleTrace eq_refl).
Defined.

Lemma cancelled_app (a b : list action) (c : context.Context) :
  cancelled (a ++ b) c = cancelled b (cancelled a c).
Proof. apply fold_left_app. Qed.

Lemma cancelled_keeps_done (a : list action) :
  forall c, context.Done c = true -> context.Done (cancelled a c) = true.
Proof.
  induction a as [|x a IH]; intros c H; [exact H|].
  simpl. apply IH. destruct x; try exact H.
  unfold context.CancelCauseFunc, context.cancel.
  destruct (context.Err c) eqn:E; [exact H|].
  unfold context.Done in H. rewrite E in H. discriminate.
Qed.

Lemma CancelCauseFunc_done (cause : option error) (c : context.Context) :
  context.Done (context.CancelCauseFunc cause c) = true.
Proof.
  unfold context.CancelCauseFunc, context.cancel, context.Done.
  destruct (context.Err c) eqn:E; [rewrite E|]; reflexivity.
Qed.

Lemma step_return_cancels (s : loopState) (e : loopEvent) (acts : list action)
    (c : context.Context) :
  step s e = Some (Returned, acts) ->
  context.Done (cancelled acts c) = true.
Proof.
  intros H.
  destruct s as [[|] | ch rp |]; destruct e as [| cmd werr | reply |];
    simpl in H; try discriminate;
    repeat match type of H with
           | context [match ?x with _ => _ end] => destruct x
           | context [if ?x then _ else _] => destruct x
           end;
    inversion H; subst; simpl;
    repeat first [apply CancelCauseFunc_done
                 | apply cancelled_keeps_done ].
Qed.

(** X14.  However the loop comes to return, it has called [cancel]: once
    it has returned the context is done. *)
Theorem loop_return_cancels (evs : list loopEvent) (acts : list action)
    (c : context.Context) :
  run loopStart evs = Some (Returned, acts) ->
  context.Done (cancelled acts c) = true.
Proof.
  assert (G : forall evs s0 acts c,
             s0 <> Returned ->
             run s0 evs = Some (Returned, acts) ->
             context.Done (cancelled acts c) = true).
  { clear. induction evs as [|e evs IH]; intros s0 acts c Hne Hrun; simpl in Hrun.
    - inversion Hrun; subst. contradiction.
    - destruct (step s0 e) as [[s1 a1]|] eqn:E1; [|discriminate].
      destruct (run s1 evs) as [[s2 a2]|] eqn:E2; [|discriminate].
      inversion Hrun; subst. rewrite cancelled_app.
      destruct s1 as [ch | ch rp |].
      + apply (IH (Selecting ch)); [discriminate | exact E2].
      + apply (IH (Routing ch rp)); [discriminate | exact E2].
      + apply cancelled_keeps_done. apply (step_return_cancels _ _ _ _ E1). }
  intros H. apply (G evs loopStart); [discriminate | exact H].
Qed.

Lemma loop_return_cancels_witness :
  context.Done
    (cancelled [Accept (Pack Build_Version);
                Write (String.append "VERSION" (String "010" ""));
                Cancel None] context.Background) = true.
Proof.
  apply (loop_return_cancels [RecvCommand (Pack Build_Version) None; Done] _ _ eq_refl).
Defined.

(** * The loops and Start *)

Lemma Start_first_cause (env : startEnv) (k : canceller) (rest : list canceller)
    (e : error) :
  dialErr env = None ->
  context.Err (parent env) = None ->
  cancels env = k :: rest ->
  causeOf k = Some e ->
  closeErr env = None ->
  Start env = StartReturns [Dial; SpawnLoops; AwaitDone; CloseConn; WaitLoops] (Some e).
Proof.
  intros Hdial Hp Hk He Hc.
  destruct (first_cause_wins env k rest e Hp Hk He) as [Hd Hcause].
  unfold Start. rewrite Hdial, Hd, Hc, Hcause. reflexivity.
Qed.



Lemma readCancels_fed (out : list effect) (tail : list readAction) :
  readCancels (map Fed out ++ tail) = readCancels tail.
Proof.
  unfold readCancels. rewrite flat_map_app.
  induction out as [|e out IH]; [reflexivity | exact IH].
Qed.

(** X16.  When the read loop is the first to cancel, what [Start] returns
    is the scanner's error, unless the scanner stopped at the end of the
    stream or on the closed socket: then it is [context.Canceled]. *)
Theorem stream_end_is_returned (r r' : lircReader) (lines : list (string * selected))
    (e : scanEnd) (acts : list readAction) (env : startEnv) (rest : list canceller) :
  readLoop r lines e = Ok (r', acts) ->
  dialErr env = None ->
  context.Err (parent env) = None ->
  cancels env = (readCancels acts ++ rest)%list ->
  closeErr env = None ->
  Start env =
  StartReturns [Dial; SpawnLoops; AwaitDone; CloseConn; WaitLoops]
    (Some (match e with
           | ScanErr err false => err
           | _ => Canceled
           end)).
Proof.
  intros Hloop Hdial Hp Hk Hc.
  unfold readLoop in Hloop.
  destruct (feed r lines) as [[r1 out]|]; [|discriminate]. cbn [bind fst snd] in Hloop.
  destruct e as [|err [|]]; inversion Hloop; subst acts;
    rewrite readCancels_fed in Hk; simpl in Hk.
  - apply (Start_first_cause env (LoopCancel None) rest); auto.
  - apply (Start_first_cause env (LoopCancel None) rest); auto.
  - apply (Start_first_cause env (LoopCancel (Some err)) (LoopCancel None :: rest)); auto.
Qed.

Lemma stream_end_is_returned_witness :
  Start {| dialErr := None; parent := context.Background;
           cancels := [LoopCancel None; LoopCancel None];
           closeErr := None; loopsEnd := true |} =
  StartReturns [Dial; SpawnLoops; AwaitDone; CloseConn; WaitLoops] (Some Canceled).
Proof.
  apply (stream_end_is_returned newLircReader _
           (sent ["000000000000002a 0 KEY_POWER Television"]) ScanEOF _ _
           [LoopCancel None] eq_refl); reflexivity.
Defined.

(** * The line of a command *)

Lemma Split_nonempty (s : string) : strings.Split s " " <> [].
Proof.
  destruct s as [|c s]; simpl; [discriminate|].
  destruct (Ascii.eqb c " "); [discriminate|].
  destruct (strings.Split s " "); discriminate.
Qed.

Lemma Split_app (a b : string) :
  strings.Split (a ++ String " " b) " " =
  (strings.Split a " " ++ strings.Split b " ")%list.
Proof.
  induction a as [|c a IH]; [reflexivity|].
  simpl. destruct (Ascii.eqb c " ").
  - rewrite IH. reflexivity.
  - rewrite IH. pose proof (Split_nonempty a) as Hne.
    destruct (strings.Split a " "); [contradiction | reflexivity].
Qed.

Lemma Split_Join (toks : list string) :
  toks <> [] ->
  strings.Split (strings.Join toks " ") " " =
  flat_map (fun t => strings.Split t " ") toks.
Proof.
  induction toks as [|t toks IH]; intros Hne; [contradiction|].
  destruct toks as [|t' toks].
  - simpl. rewrite app_nil_r. reflexivity.
  - change (strings.Join (t :: t' :: toks) " ")
      with (t ++ String " " (strings.Join (t' :: toks) " "))%string.
    rewrite Split_app, IH by discriminate. reflexivity.
Qed.

(** X17.  The line that the loop writes for a command is its tokens joined
    by spaces, then a newline; the daemon's fields of that line are the
    fields of the tokens, and so the tokens themselves when no token has
    a space in it. *)
Theorem written_line_fields (cmd : command) :
  encode cmd <> [] ->
  exists line,
    step loopStart (RecvCommand cmd None) =
      Some (Selecting nil, [Accept cmd; Write (line ++ String "010" "")]) /\
    strings.Split line " " = flat_map (fun t => strings.Split t " ") (encode cmd) /\
    (Forall (fun t => noSpace t = true) (encode cmd) ->
     strings.Split line " " = encode cmd).
Proof.
  intros Hne. exists (strings.Join (encode cmd) " ").
  split; [reflexivity|]. split; [apply Split_Join, Hne|].
  intros Hall. rewrite Split_Join by exact Hne.
  clear Hne. induction (encode cmd) as [|t toks IH]; [reflexivity|].
  inversion Hall; subst. simpl. rewrite Split_token by assumption.
  rewrite IH by assumption. reflexivity.
Qed.

Lemma written_line_fields_witness :
  exists line,
    step loopStart (RecvCommand (Pack listDenonTuner) None) =
      Some (Selecting nil, [Accept (Pack listDenonTuner); Write (line ++ String "010" "")]) /\
    strings.Split line " " =
      flat_map (fun t => strings.Split t " ") (encode (Pack listDenonTuner)) /\
    (Forall (fun t => noSpace t = true) (encode (Pack listDenonTuner)) ->
     strings.Split line " " = encode (Pack listDenonTuner)).
Proof.
  apply (written_line_fields (Pack listDenonTuner)). discriminate.
Defined.

(** * More of SendCommand *)

(** X18.  [SendCommand] returns a nil error in one case only: it submitted
    the command, received a reply, the reply is named as the first token
    of the command, and its success flag is set; the reply it returns is
    then the one received. *)
Theorem SendCommand_nil_iff {A : Type} `{Command A} (cmd : A)
    (s : submission) (a : awaiting) (rp : CommandReply) :
  SendCommand cmd s a = Ok (rp, None) <->
  s = Submitted /\ a = Received rp /\
  hd_error (EncodeCommand cmd) = Some (Reply.Command rp) /\
  Reply.Success rp = true.
Proof.
  unfold SendCommand, index. split.
  - intros Hs. destruct s; [discriminate|]. destruct a as [|reply]; [discriminate|].
    destruct (EncodeCommand cmd) as [|name rest]; [discriminate|].
    cbn [nth_error bind] in Hs.
    destruct (Reply.Command reply =? name)%string eqn:En; [|discriminate].
    destruct (Reply.Success reply) eqn:Eo; [|discriminate].
    cbn [negb] in Hs. inversion Hs; subst.
    apply String.eqb_eq in En. subst name. auto.
  - intros [-> [-> [Hhd Hok]]].
    destruct (EncodeCommand cmd) as [|name rest]; [discriminate|].
    simpl in Hhd. inversion Hhd; subst.
    cbn [nth_error bind]. rewrite String.eqb_refl, Hok. reflexivity.
Qed.

(** X19.  [SendCommand] panics in one case only: a reply arrives for a
    command whose encoding is the empty slice. *)
Theorem SendCommand_panics_iff {A : Type} `{Command A} (cmd : A)
    (s : submission) (a : awaiting) :
  (exists p, SendCommand cmd s a = Panic p) <->
  EncodeCommand cmd = [] /\ s = Submitted /\ exists rp, a = Received rp.
Proof.
  unfold SendCommand, index. split.
  - intros [p Hp]. destruct s; [discriminate|]. destruct a as [|reply]; [discriminate|].
    destruct (EncodeCommand cmd) as [|name rest].
    + repeat split. exists reply. reflexivity.
    + cbn [nth_error bind] in Hp.
      destruct (negb (Reply.Command reply =? name)%string); [discriminate|].
      destruct (negb (Reply.Success reply)); discriminate.
  - intros [He [-> [rp ->]]]. rewrite He. eexists. reflexivity.
Qed.

(** The commands of the package have a first token. *)
Lemma named_never_panics {A : Type} `{Command A} (cmd : A) (name : string)
    (s : submission) (a : awaiting) :
  hd_error (EncodeCommand cmd) = Some name ->
  exists p, SendCommand cmd s a = Ok p.
Proof.
  intros Hhd. unfold SendCommand, index.
  destruct s; [eexists; reflexivity|]. destruct a as [|reply]; [eexists; reflexivity|].
  destruct (EncodeCommand cmd) as [|n rest]; [discriminate|].
  cbn [nth_error bind].
  destruct (negb (Reply.Command reply =? n)%string); [eexists; reflexivity|].
  destruct (negb (Reply.Success reply)); eexists; reflexivity.
Qed.

(** X20.  On the nine commands of the package [SendCommand] never panics,
    whatever their fields and whatever arrives. *)
Theorem package_commands_never_panic (s : submission) (a : awaiting) :
  (forall c : SendOnce, exists p, SendCommand c s a = Ok p) /\
  (forall c : SendStart, exists p, SendCommand c s a = Ok p) /\
  (forall c : SendStop, exists p, SendCommand c s a = Ok p) /\
  (forall c : List, exists p, SendCommand c s a = Ok p) /\
  (forall c : SetInputLog, exists p, SendCommand c s a = Ok p) /\
  (forall c : DrvOption, exists p, SendCommand c s a = Ok p) /\
  (forall c : Simulate, exists p, SendCommand c s a = Ok p) /\
  (forall c : SetTransmitters, exists p, SendCommand c s a = Ok p) /\
  (forall c : Version, exists p, SendCommand c s a = Ok p).
Proof.
  repeat split; intros c.
  - apply (named_never_panics c "SEND_ONCE"). simpl. destruct (Repeats c =? 0); reflexivity.
  - apply (named_never_panics c "SEND_START"). reflexivity.
  - apply (named_never_panics c "SEND_STOP"). reflexivity.
  - apply (named_never_panics c "LIST"). simpl.
    destruct (RemoteControl c =? "")%string; reflexivity.
  - apply (named_never_panics c "SET_INPUTLOG"). simpl.
    destruct (Path c =? "")%string; reflexivity.
  - apply (named_never_panics c "DRV_OPTION"). reflexivity.
  - apply (named_never_panics c "SIMULATE"). reflexivity.
  - apply (named_never_panics c "SET_TRANSMITTERS"). reflexivity.
  - apply (named_never_panics c "VERSION"). reflexivity.
Qed.

(** X21.  A whole exchange without data: for a command whose first token
    is not SIGHUP, when the daemon answers with that token as header, the
    reader delivers the reply, the loop routes it and takes commands
    again, and [SendCommand] returns it, with a nil error for SUCCESS and
    the sentinel for ERROR. *)
Theorem exchange_without_data {A : Type} `{Command A} (cmd : A)
    (name : string) (rest : list string) (ok : bool) :
  EncodeCommand cmd = name :: rest ->
  (name =? "SIGHUP")%string = false ->
  feed newLircReader (sent ["BEGIN"; name; statusLine ok; "END"]) =
    Ok (mkReader stateReceive (mkReply name ok []) 0 0,
        [SendReply (mkReply name ok [])]) /\
  run (Selecting nil) [RecvReply (mkReply name ok []); SentReply] =
    Some (Selecting r_send, [Deliver (mkReply name ok [])]) /\
  SendCommand cmd Submitted (Received (mkReply name ok [])) =
    Ok (mkReply name ok [], if ok then None else Some ErrUnsuccessfulCommand).
Proof.
  intros He Hn. split; [|split].
  - destruct ok; reflexivity.
  - simpl. rewrite Hn. reflexivity.
  - unfold SendCommand, index. rewrite He. cbn [nth_error bind].
    simpl Reply.Command. rewrite String.eqb_refl. destruct ok; reflexivity.
Qed.

Lemma exchange_without_data_witness :
  SendCommand {| ss_RemoteControl := "tv"; ss_ButtonName := "KEY_UP" |} Submitted
    (Received (mkReply "SEND_START" true [])) =
  Ok (mkReply "SEND_START" true [], None).
Proof.
  refine (proj2 (proj2 (exchange_without_data
                          {| ss_RemoteControl := "tv"; ss_ButtonName := "KEY_UP" |}
                          "SEND_START" ["tv"; "KEY_UP"] true _ _))); reflexivity.
Defined.

Lemma longer_not_same (a b : string) (c : ascii) :
  ((a ++ String c b) =? a)%string = false.
Proof.
  apply String.eqb_neq. intros H.
  assert (Hl : String.length (a ++ String c b) = String.length a) by (rewrite H; reflexivity).
  assert (Ha : forall x y, String.length (x ++ y) = (String.length x + String.length y)%nat)
    by (induction x; simpl; intros; [|rewrite IHx]; reflexivity).
  rewrite Ha in Hl. simpl in Hl. lia.
Qed.

(** X22.  For a command of two tokens or more, a reply whose header is the
    whole line that was written, and not its first token alone, is
    answered with the correlation error, whatever its status and data. *)
Theorem echoed_line_is_unexpected {A : Type} `{Command A} (cmd : A)
    (t0 t1 : string) (rest : list string) (ok : bool) (data : list string) :
  EncodeCommand cmd = t0 :: t1 :: rest ->
  SendCommand cmd Submitted
    (Received (mkReply (strings.Join (EncodeCommand cmd) " ") ok data)) =
  Ok (mkReply (strings.Join (EncodeCommand cmd) " ") ok data,
      Some (Errorf_q "unexpected reply command" (strings.Join (EncodeCommand cmd) " "))).
Proof.
  intros He. unfold SendCommand, index. rewrite He. cbn [nth_error bind].
  simpl Reply.Command.
  change (strings.Join (t0 :: t1 :: rest) " ")
    with (t0 ++ String " " (strings.Join (t1 :: rest) " "))%string.
  rewrite longer_not_same. reflexivity.
Qed.

Lemma echoed_line_is_unexpected_witness :
  SendCommand listDenonTuner Submitted (Received (mkReply "LIST DenonTuner" true ["KEY_1"])) =
  Ok (mkReply "LIST DenonTuner" true ["KEY_1"],
      Some (Errorf_q "unexpected reply command" "LIST DenonTuner")).
Proof.
  refine (echoed_line_is_unexpected listDenonTuner "LIST" "DenonTuner" [] true ["KEY_1"] _).
  reflexivity.
Defined.

(** X23.  [RepeatButton] gives a callback in one case only: a reply named
    SEND_START with its success flag set was received for the start
    command; the callback then sends [SendStop] for the same remote and
    button.  In every other case it gives no callback and an error. *)
Theorem RepeatButton_callback (remote button : string) (s : submission) (a : awaiting) :
  (forall stop err,
      RepeatButton remote button s a = Ok (Some stop, err) <->
      s = Submitted /\ (exists data, a = Received (mkReply "SEND_START" true data)) /\
      stop = {| sp_RemoteControl := remote; sp_ButtonName := button |} /\ err = None) /\
  (forall err,
      RepeatButton remote button s a = Ok (None, err) -> err <> None) /\
  (exists p, RepeatButton remote button s a = Ok p) /\
  EncodeCommand {| sp_RemoteControl := remote; sp_ButtonName := button |} =
    ["SEND_STOP"; remote; button].
Proof.
  unfold RepeatButton, SendCommand, index. simpl EncodeCommand. cbn [nth_error bind].
  split; [|split; [|split; [|reflexivity]]].
  - intros stop err. split.
    + intros Hr. destruct s; [discriminate|]. destruct a as [|[c o d]]; [discriminate|].
      simpl in Hr.
      destruct (c =? "SEND_START")%string eqn:Ec; [|discriminate].
      destruct o; [|discriminate]. simpl in Hr. inversion Hr; subst.
      apply String.eqb_eq in Ec. subst c.
      repeat split. exists d. reflexivity.
    + intros [-> [[data ->] [-> ->]]]. reflexivity.
  - intros err Hr. destruct s; [inversion Hr; discriminate|].
    destruct a as [|[c o d]]; [inversion Hr; discriminate|]. simpl in Hr.
    destruct (c =? "SEND_START")%string; [|inversion Hr; discriminate].
    destruct o; inversion Hr; discriminate.
  - destruct s; [eexists; reflexivity|].
    destruct a as [|[c o d]]; [eexists; reflexivity|]. simpl.
    destruct (c =? "SEND_START")%string; [|eexists; reflexivity].
    destruct o; eexists; reflexivity.
Qed.

(** * The repeat count of SendOnce *)

Lemma append_empty (a : string) : (a ++ "")%string = a.
Proof. induction a as [|c a IH]; simpl; [|rewrite IH]; reflexivity. Qed.

Lemma append_assoc' (a b c : string) : ((a ++ b) ++ c)%string = (a ++ (b ++ c))%string.
Proof. induction a as [|x a IH]; simpl; [|rewrite IH]; reflexivity. Qed.

Lemma decimalFrom_app (a b : string) :
  forall n, decimalFrom (a ++ b) n = decimalFrom b (decimalFrom a n).
Proof. induction a as [|c a IH]; intros n; simpl; [|rewrite IH]; reflexivity. Qed.

Lemma allDigits_app (a b : string) :
  allDigits (a ++ b) = allDigits a && allDigits b.
Proof.
  induction a as [|c a IH]; [reflexivity|].
  cbn [allDigits String.append]. rewrite IH, andb_assoc. reflexivity.
Qed.

Lemma digitChar_code (d : Z) :
  0 <= d < 10 -> Z.of_nat (nat_of_ascii (strconv.digitChar d)) = 48 + d.
Proof.
  intros H. unfold strconv.digitChar.
  rewrite nat_ascii_embedding by lia. lia.
Qed.

Lemma digitChar_decimal (d : Z) :
  0 <= d < 10 ->
  isDecimal (String (strconv.digitChar d) "") = true /\
  forall n, decimalFrom (String (strconv.digitChar d) "") n = n * 10 + d.
Proof.
  intros H. pose proof (digitChar_code d H) as Hc. split.
  - cbn [isDecimal allDigits]. rewrite Hc.
    destruct (Z.leb_spec 48 (48 + d)); [|lia].
    destruct (Z.leb_spec (48 + d) 57); [|lia]. reflexivity.
  - intros n. cbn [decimalFrom]. rewrite Hc. f_equal. lia.
Qed.

Lemma itoaLoop_S (f : nat) (i : Z) (acc : string) :
  strconv.itoaLoop (S f) i acc =
  if i <? 10 then String (strconv.digitChar (i mod 10)) acc
  else strconv.itoaLoop f (i / 10) (String (strconv.digitChar (i mod 10)) acc).
Proof. reflexivity. Qed.

Lemma itoaLoop_decimal (f : nat) :
  forall i acc,
    0 <= i < 10 ^ Z.of_nat (S f) ->
    exists p, strconv.itoaLoop (S f) i acc = (p ++ acc)%string /\
              isDecimal p = true /\ decimalValue p = i.
Proof.
  induction f as [|f IH]; intros i acc Hi; rewrite itoaLoop_S.
  - change (10 ^ Z.of_nat 1) with 10 in Hi.
    destruct (Z.ltb_spec i 10); [|lia].
    assert (Hd : 0 <= i mod 10 < 10) by (apply Z.mod_pos_bound; lia).
    destruct (digitChar_decimal _ Hd) as [H1 H2].
    exists (String (strconv.digitChar (i mod 10)) ""). split; [reflexivity|].
    split; [exact H1|]. unfold decimalValue. rewrite H2.
    rewrite Z.mod_small by lia. lia.
  - assert (Hd : 0 <= i mod 10 < 10) by (apply Z.mod_pos_bound; lia).
    destruct (digitChar_decimal _ Hd) as [H1 H2].
    destruct (Z.ltb_spec i 10) as [Hlt|Hge].
    + exists (String (strconv.digitChar (i mod 10)) ""). split; [reflexivity|].
      split; [exact H1|]. unfold decimalValue. rewrite H2.
      rewrite Z.mod_small by lia. lia.
    + assert (Hq : 0 <= i / 10 < 10 ^ Z.of_nat (S f)).
      { split; [apply Z.div_pos; lia|].
        apply Z.div_lt_upper_bound; [lia|].
        replace (Z.of_nat (S (S f))) with (Z.of_nat (S f) + 1) in Hi by lia.
        rewrite Z.pow_add_r in Hi by lia. lia. }
      destruct (IH (i / 10) (String (strconv.digitChar (i mod 10)) acc) Hq)
        as [p [Hp [Hdec Hval]]].
      exists (p ++ String (strconv.digitChar (i mod 10)) "")%string.
      split; [rewrite Hp, append_assoc'; reflexivity|]. split.
      * destruct p as [|c p]; [discriminate|].
        cbn [isDecimal] in Hdec |- *.
        change (String c p ++ String (strconv.digitChar (i mod 10)) "")%string
          with (String c (p ++ String (strconv.digitChar (i mod 10)) ""))%string.
        cbn [isDecimal].
        change (String c (p ++ String (strconv.digitChar (i mod 10)) ""))
          with (String c p ++ String (strconv.digitChar (i mod 10)) "")%string.
        rewrite allDigits_app, Hdec. exact H1.
      * unfold decimalValue in *. rewrite decimalFrom_app, Hval, H2.
        pose proof (Z.div_mod i 10). lia.
Qed.

(** X24.  The fourth token of [SendOnce] is the decimal of its repeat count:
    for a count between 1 and 2^63 - 1 it is a run of digits that
    [ParseUint] reads back as the count. *)
Theorem SendOnce_repeats_round_trip (c : SendOnce) :
  0 < Repeats c < 2 ^ 63 ->
  exists tok,
    EncodeCommand c = ["SEND_ONCE"; so_RemoteControl c; so_ButtonName c; tok] /\
    isDecimal tok = true /\
    strconv.ParseUint tok = (Repeats c, None).
Proof.
  intros Hr.
  assert (Hi : 0 <= Repeats c < 10 ^ Z.of_nat 20)
    by (change (10 ^ Z.of_nat 20) with 100000000000000000000;
        change (2 ^ 63) with 9223372036854775808 in Hr; lia).
  destruct (itoaLoop_decimal 19 (Repeats c) "" Hi) as [p [Hp [Hdec Hval]]].
  rewrite append_empty in Hp.
  exists p. split; [|split; [exact Hdec|]].
  - cbn [EncodeCommand SendOnce_Command].
    destruct (Z.eqb_spec (Repeats c) 0); [lia|].
    unfold int_of_uint. destruct (Z.ltb_spec (Repeats c) (2 ^ 63)); [|lia].
    unfold strconv.Itoa. destruct (Z.ltb_spec (Repeats c) 0); [lia|].
    rewrite Hp. reflexivity.
  - rewrite <- Hval. apply ParseUint_decimal; [exact Hdec|].
    rewrite Hval. unfold strconv.maxUint64.
    change (2 ^ 63) with 9223372036854775808 in Hr.
    change (2 ^ 64) with 18446744073709551616. lia.
Qed.

Lemma SendOnce_repeats_round_trip_witness :
  exists tok,
    EncodeCommand {| so_RemoteControl := "DenonTuner"; so_ButtonName := "PROG-SCAN";
                     Repeats := 600 |} =
      ["SEND_ONCE"; "DenonTuner"; "PROG-SCAN"; tok] /\
    isDecimal tok = true /\
    strconv.ParseUint tok = (600, None).
Proof.
  apply (SendOnce_repeats_round_trip
           {| so_RemoteControl := "DenonTuner"; so_ButtonName := "PROG-SCAN";
              Repeats := 600 |}).
  simpl. lia.
Defined.

(** * RouteEvents *)

Section RoutingFacts.

Variable Handler : Type.
Variable Match : string -> string -> bool.

Lemma lookup_In {V : Type} (m : list (string * V)) (k : string) (v : V) :
  NoDup (map fst m) -> In (k, v) m -> lookup m k = Some v.
Proof.
  induction m as [|[k' v'] m IH]; intros Hnd Hin; [contradiction|].
  simpl in Hnd. inversion Hnd as [|? ? Hnotin Hnd']; subst.
  simpl. destruct Hin as [Heq | Hin].
  - inversion Heq; subst. rewrite String.eqb_refl. reflexivity.
  - destruct (String.eqb_spec k' k) as [->|Hne].
    + exfalso. apply Hnotin. apply (in_map fst _ _ Hin).
    + apply IH; assumption.
Qed.

(** X25.  An event whose remote and button are keys of the maps, with a
    handler that is not nil, goes to that handler only: it is called
    once, and no pattern is tried. *)
Theorem exact_handler_only (handlers : RemoteHandlers Handler)
    (bhs : ButtonHandlers Handler) (h : Handler) (event : ButtonPress) :
  NoDup (map fst handlers) ->
  In (RemoteControlName event, bhs) handlers ->
  NoDup (map fst bhs) ->
  In (ButtonName event, Some h) bhs ->
  routeEvent Handler Match handlers event = Called [(h, event)].
Proof.
  intros N1 I1 N2 I2. unfold routeEvent, exactHandler.
  rewrite (lookup_In _ _ _ N1 I1), (lookup_In _ _ _ N2 I2). reflexivity.
Qed.

Lemma andThen_assoc (a b c : routed Handler) :
  andThen Handler (andThen Handler a b) c = andThen Handler a (andThen Handler b c).
Proof.
  destruct a as [x|x]; [|reflexivity].
  destruct b as [y|y]; [|reflexivity].
  destruct c as [z|z]; simpl; rewrite app_assoc; reflexivity.
Qed.

Lemma callAll_app (a b : list (option Handler)) (event : ButtonPress) :
  callAll Handler (a ++ b) event =
  andThen Handler (callAll Handler a event) (callAll Handler b event).
Proof.
  induction a as [|[f|] a IH]; cbn [callAll app].
  - destruct (callAll Handler b event); reflexivity.
  - rewrite IH, <- andThen_assoc. reflexivity.
  - reflexivity.
Qed.

Lemma routeButtons_callAll (bhs : ButtonHandlers Handler) (event : ButtonPress) :
  routeButtons Handler Match bhs event =
  callAll Handler (matchingButtons Handler Match bhs event) event.
Proof.
  induction bhs as [|[button h] bhs IH]; [reflexivity|].
  unfold matchingButtons in *. simpl.
  destruct (Match button (ButtonName event)); [|exact IH].
  simpl. destruct h; [rewrite IH|]; reflexivity.
Qed.

Lemma routeRemotes_callAll (hs : RemoteHandlers Handler) (event : ButtonPress) :
  routeRemotes Handler Match hs event =
  callAll Handler (matching Handler Match hs event) event.
Proof.
  induction hs as [|[remote bhs] hs IH]; [reflexivity|].
  unfold matching in *. simpl.
  destruct (Match remote (RemoteControlName event)); [|exact IH].
  simpl. rewrite callAll_app, IH, routeButtons_callAll. reflexivity.
Qed.

Lemma callAll_all (hs : list Handler) (event : ButtonPress) :
  callAll Handler (map Some hs) event = Called (map (fun h => (h, event)) hs).
Proof.
  induction hs as [|h hs IH]; [reflexivity|].
  simpl. rewrite IH. reflexivity.
Qed.

(** X26.  An event without a handler of its own goes to the handlers
    stored under patterns that match its remote and its button, in the
    order of the two [range]s: to all of them when none is nil, and
    otherwise to those before the first nil one, whose call panics. *)
Theorem pattern_handlers_called (handlers : RemoteHandlers Handler)
    (event : ButtonPress) :
  exactHandler Handler handlers (RemoteControlName event) (ButtonName event) = None ->
  (forall hs,
      matching Handler Match handlers event = map Some hs ->
      routeEvent Handler Match handlers event = Called (map (fun h => (h, event)) hs)) /\
  (forall before rest,
      matching Handler Match handlers event = (map Some before ++ None :: rest)%list ->
      routeEvent Handler Match handlers event =
      NilCall (map (fun h => (h, event)) before)).
Proof.
  intros Hex. unfold routeEvent. rewrite Hex, routeRemotes_callAll. split.
  - intros hs ->. apply callAll_all.
  - intros before rest ->. rewrite callAll_app, callAll_all. simpl.
    rewrite app_nil_r. reflexivity.
Qed.

Lemma filter_perm {A : Type} (f : A -> bool) (l l' : list A) :
  Permutation l l' -> Permutation (filter f l) (filter f l').
Proof.
  induction 1 as [| x l l' _ IH | x y l | l l' l'' _ IH1 _ IH2]; simpl.
  - constructor.
  - destruct (f x); [constructor|]; exact IH.
  - destruct (f x), (f y); try reflexivity. constructor.
  - exact (Permutation_trans IH1 IH2).
Qed.

Lemma lookup_perm {V : Type} (m m' : list (string * V)) (k : string) :
  Permutation m m' -> NoDup (map fst m) -> lookup m k = lookup m' k.
Proof.
  induction 1 as [| [x v] l l' Hp IH | [x v] [y w] l | l l' l'' Hp1 IH1 Hp2 IH2];
    intros Hnd.
  - reflexivity.
  - simpl. inversion Hnd; subst. rewrite IH by assumption. reflexivity.
  - simpl in *. inversion Hnd as [|? ? Hnotin _]; subst.
    destruct (String.eqb_spec y k) as [->|]; [|reflexivity].
    destruct (String.eqb_spec x k) as [->|]; [|reflexivity].
    exfalso. apply Hnotin. left. reflexivity.
  - rewrite IH1 by assumption. apply IH2.
    apply (Permutation_NoDup (Permutation_map fst Hp1) Hnd).
Qed.

Lemma all_handlers (l : list (option Handler)) :
  (forall h, In h l -> h <> None) -> exists hs, l = map Some hs.
Proof.
  induction l as [|[f|] l IH]; intros H.
  - exists []. reflexivity.
  - destruct IH as [hs Hhs]; [intros h Hin; apply H; right; exact Hin|].
    exists (f :: hs). rewrite Hhs. reflexivity.
  - exfalso. apply (H None); [left|]; reflexivity.
Qed.

(** X27.  When no handler under a matching pattern is nil, the order in
    which [range] yields the remotes changes only the order of the
    calls: for the remotes in any other order the event gives the same
    calls, each as many times. *)
Theorem range_order_permutes (handlers handlers' : RemoteHandlers Handler)
    (event : ButtonPress) :
  Permutation handlers handlers' ->
  NoDup (map fst handlers) ->
  (forall h, In h (matching Handler Match handlers event) -> h <> None) ->
  exists calls calls',
    routeEvent Handler Match handlers event = Called calls /\
    routeEvent Handler Match handlers' event = Called calls' /\
    Permutation calls calls'.
Proof.
  intros Hp Hnd Hall. unfold routeEvent, exactHandler.
  rewrite <- (lookup_perm _ _ (RemoteControlName event) Hp Hnd).
  fold (exactHandler Handler handlers (RemoteControlName event) (ButtonName event)).
  destruct (exactHandler Handler handlers (RemoteControlName event) (ButtonName event))
    as [h|].
  - exists [(h, event)], [(h, event)]. repeat split. reflexivity.
  - destruct (all_handlers _ Hall) as [hs Hhs].
    assert (Hm : Permutation (matching Handler Match handlers event)
                             (matching Handler Match handlers' event))
      by (unfold matching; apply Permutation_flat_map, filter_perm, Hp).
    rewrite Hhs in Hm. apply Permutation_sym in Hm.
    destruct (Permutation_map_inv _ _ Hm) as [hs' [Hhs' Hperm]].
    exists (map (fun h => (h, event)) hs), (map (fun h => (h, event)) hs').
    rewrite !routeRemotes_callAll, Hhs, Hhs', !callAll_all.
    repeat split. apply Permutation_map, Hperm.
Qed.

End RoutingFacts.

Lemma exact_handler_only_witness :
  routeEvent nat starOrSame
    [("*", [("*", Some 0%nat)]); ("tv", [("KEY_POWER", Some 1%nat); ("*", Some 2%nat)])]
    {| Code := 0; RepeatCount := 0; ButtonName := "KEY_POWER"; RemoteControlName := "tv" |} =
  Called [(1%nat, {| Code := 0; RepeatCount := 0; ButtonName := "KEY_POWER";
                     RemoteControlName := "tv" |})].
Proof.
  apply (exact_handler_only nat starOrSame _ [("KEY_POWER", Some 1%nat); ("*", Some 2%nat)]).
  - repeat constructor; simpl; intuition discriminate.
  - right. left. reflexivity.
  - repeat constructor; simpl; intuition discriminate.
  - left. reflexivity.
Defined.

Lemma pattern_handlers_called_witness :
  routeEvent nat starOrSame
    [("*", [("*", Some 0%nat)]); ("tv", [("KEY_POWER", Some 1%nat); ("*", Some 2%nat)])]
    {| Code := 0; RepeatCount := 0; ButtonName := "KEY_UP"; RemoteControlName := "tv" |} =
  Called [(0%nat, {| Code := 0; RepeatCount := 0; ButtonName := "KEY_UP";
                     RemoteControlName := "tv" |});
          (2%nat, {| Code := 0; RepeatCount := 0; ButtonName := "KEY_UP";
                     RemoteControlName := "tv" |})].
Proof.
  apply (proj1 (pattern_handlers_called nat starOrSame
                  [("*", [("*", Some 0%nat)]);
                   ("tv", [("KEY_POWER", Some 1%nat); ("*", Some 2%nat)])]
                  {| Code := 0; RepeatCount := 0; ButtonName := "KEY_UP";
                     RemoteControlName := "tv" |} eq_refl) [0%nat; 2%nat] eq_refl).
Defined.

Lemma range_order_permutes_witness :
  exists calls calls',
    routeEvent nat starOrSame
      [("*", [("*", Some 0%nat)]); ("tv", [("*", Some 2%nat)])]
      {| Code := 0; RepeatCount := 0; ButtonName := "KEY_UP"; RemoteControlName := "tv" |} =
      Called calls /\
    routeEvent nat starOrSame
      [("tv", [("*", Some 2%nat)]); ("*", [("*", Some 0%nat)])]
      {| Code := 0; RepeatCount := 0; ButtonName := "KEY_UP"; RemoteControlName := "tv" |} =
      Called calls' /\
    Permutation calls calls'.
Proof.
  apply (range_order_permutes nat starOrSame
           [("*", [("*", Some 0%nat)]); ("tv", [("*", Some 2%nat)])]
           [("tv", [("*", Some 2%nat)]); ("*", [("*", Some 0%nat)])]).
  - apply perm_swap.
  - repeat constructor; simpl; intuition discriminate.
  - simpl. intros h [H | [H | H]]; try contradiction; subst; discriminate.
Defined.

(** * Start, its loops and what it returns *)












